(** * claude-coord: the lock lifecycle engine

    A shallow embedding of [internal/lock] (the lock manager), of the part
    of [internal/agent] it depends on (the heartbeat files) and of
    [internal/config], followed by the properties of the lock life cycle:
    staleness, acquire and reclaim, release, pattern resolution and the
    file-name encodings.  The rest of [internal/agent] (the registry),
    [internal/cache] and the commands of [internal/cli] that work on the
    two directories are embedded as well, with their properties in the
    second part.

    Conventions of the model.
    - The coordination directory is a [World]: the [locks] directory, the
      [agents] directory, the wall clock and the inode counter.
    - An instant is a number of nanoseconds; a [time.Duration] is a 64-bit
      signed number of nanoseconds.
    - A lock file holds [Some l] when [json.Unmarshal] yields the lock [l]
      and [None] when its bytes do not parse (the empty file that
      [syscall.Open] has created and [syscall.Write] has not yet filled).
    - The only system-call failures modelled are "file exists" and "no such
      file"; permission and device errors are outside the model.
    - An agent file holds the record [json.Unmarshal] yields; agent files
      that do not parse are outside the model.
    - Run without interference, a call reads the clock once: the readings
      of [time.Now] within it are one reading. *)

From stdpp Require Import base numbers strings list gmap sorting.
From Stdlib Require Import ZArith Lia Ascii DecimalString.

Local Open Scope Z_scope.

(** ** Package [time] (the part the lock manager uses) *)

Module time.

(** An instant, in nanoseconds since the epoch. *)
Definition Time : Type := Z.

(** A [time.Duration] is an [int64] count of nanoseconds. *)
Definition Duration : Type := Z.

Definition minDuration : Duration := - 2 ^ 63.
Definition maxDuration : Duration := 2 ^ 63 - 1.

(** Two's-complement wrap-around of [int64] arithmetic. *)
Definition wrap64 (z : Z) : Z := (z + 2 ^ 63) mod 2 ^ 64 - 2 ^ 63.

Definition Second : Duration := 1000000000.

(** [time.Duration(n) * time.Second]: an [int64] product, which wraps. *)
Definition Seconds (n : Z) : Duration := wrap64 (n * Second).

(** [t.Sub(u)]: the difference, saturated to the range of [Duration]. *)
Definition Sub (t u : Time) : Duration :=
  if t - u <? minDuration then minDuration
  else if maxDuration <? t - u then maxDuration
  else t - u.

(** [time.Since(t)] with the clock reading [now]. *)
Definition Since (now t : Time) : Duration := Sub now t.

End time.

(** ** Package [strings] (the part the program uses) *)

Module strings.

(** [strings.ReplaceAll(s, old, new)] where [old] and [new] are one byte
    long, as at every call site of the program. *)
Fixpoint ReplaceAll (s : string) (old new : ascii) : string :=
  match s with
  | EmptyString => EmptyString
  | String c s' =>
      String (if Ascii.eqb c old then new else c) (ReplaceAll s' old new)
  end.

(** [strings.HasSuffix(s, suffix)]. *)
Definition HasSuffix (s suffix : string) : bool :=
  let n := String.length s in
  let k := String.length suffix in
  (k <=? n)%nat && String.eqb (String.substring (n - k) k s) suffix.

End strings.

(** ** Package [config] *)

Module config.

Definition LocksDir : string := "locks".
Definition AgentsDir : string := "agents".
Definition DefaultTTL : Z := 300.
Definition DefaultStale : Z := 120.
Definition DefaultHeartbeat : Z := 30.

Record ProtectedPath : Type := {
  Pattern : string;
  Name : string;
  Description : string
}.

Record Settings : Type := {
  SettingsDefaultTTL : Z;
  StaleThreshold : Z;
  HeartbeatInterval : Z
}.

(** The fields [Version] and [Logical] are not read by the lock manager
    and are left out. *)
Record Config : Type := {
  Protected : list ProtectedPath;
  ConfigSettings : Settings
}.

Definition pp (pattern name description : string) : ProtectedPath :=
  {| Pattern := pattern; Name := name; Description := description |}.

Definition DefaultConfig : Config :=
  {| Protected :=
       [ pp "db/**/*" "Database" "Database schema and migrations";
         pp "migrations/**/*" "Migrations" "";
         pp "prisma/schema.prisma" "Prisma Schema" "";
         pp "drizzle/**/*" "Drizzle Schema" "";
         pp "package.json" "NPM Config" "";
         pp "package-lock.json" "NPM Lock" "";
         pp "yarn.lock" "Yarn Lock" "";
         pp "pnpm-lock.yaml" "PNPM Lock" "";
         pp "Cargo.toml" "Cargo Config" "";
         pp "Cargo.lock" "Cargo Lock" "";
         pp "go.mod" "Go Module" "";
         pp "go.sum" "Go Sum" "";
         pp "requirements.txt" "Python Requirements" "";
         pp "pyproject.toml" "Python Project" "";
         pp "poetry.lock" "Poetry Lock" "";
         pp ".env*" "Environment Files" "" ];
     ConfigSettings :=
       {| SettingsDefaultTTL := DefaultTTL;
          StaleThreshold := DefaultStale;
          HeartbeatInterval := DefaultHeartbeat |} |}.

(** The defaults [Load] gives to the settings that the file leaves at
    zero. *)
Definition applyDefaults (cfg : Config) : Config :=
  let s := ConfigSettings cfg in
  {| Protected := Protected cfg;
     ConfigSettings :=
       {| SettingsDefaultTTL :=
            if SettingsDefaultTTL s =? 0 then DefaultTTL
            else SettingsDefaultTTL s;
          StaleThreshold :=
            if StaleThreshold s =? 0 then DefaultStale else StaleThreshold s;
          HeartbeatInterval :=
            if HeartbeatInterval s =? 0 then DefaultHeartbeat
            else HeartbeatInterval s |} |}.

(** [Load]; [file] is what [os.ReadFile] and [yaml.Unmarshal] make of
    [config.yaml], [None] when either fails. *)
Definition Load (file : option Config) : option Config :=
  match file with
  | None => None
  | Some cfg => Some (applyDefaults cfg)
  end.

End config.

(** ** Package [doublestar] (external glob library)

  [doublestar.Match] is not part of the repository.  The lock manager is
  embedded over an arbitrary matcher (a section variable); the definition
  below is used only to evaluate the manager on concrete files. *)

Module doublestar.

(** Reads the alternatives of a brace list up to its closing brace;
    [cur] is the alternative being read.  A nested brace list is not
    modelled and is reported as a bad pattern. *)
Fixpoint alternatives (s cur : string) : option (list string * string) :=
  match s with
  | EmptyString => None
  | String c s' =>
      if Ascii.eqb c "}" then Some ([cur], s')
      else if Ascii.eqb c "{" then None
      else if Ascii.eqb c "," then
        match alternatives s' "" with
        | Some (l, rest) => Some (cur :: l, rest)
        | None => None
        end
      else alternatives s' (cur +:+ String c "")
  end.

(** Brace expansion: the patterns without brace lists that [p] stands
    for; [None] when a brace list is not closed. *)
Fixpoint expand (fuel : nat) (p : string) : option (list string) :=
  match fuel with
  | O => None
  | S fuel' =>
      match p with
      | EmptyString => Some [""]
      | String c p' =>
          if Ascii.eqb c "{" then
            match alternatives p' "" with
            | None => None
            | Some (alts, rest) =>
                match expand fuel' rest with
                | None => None
                | Some rs =>
                    Some (flat_map (fun a => map (fun r => a +:+ r) rs) alts)
                end
            end
          else
            match expand fuel' p' with
            | None => None
            | Some rs => Some (map (String c) rs)
            end
      end
  end.

(** Matching of a pattern without brace lists; [start] tells that the
    pattern is at the start of a path component. *)
Fixpoint matchFrom (p : string) : bool -> string -> bool :=
  match p with
  | EmptyString =>
      fun _ s => match s with EmptyString => true | String _ _ => false end
  | String c p' =>
      fun start s =>
        if Ascii.eqb c "*" then
          let single :=
            (fix star (s : string) : bool :=
               matchFrom p' false s ||
               match s with
               | EmptyString => false
               | String a s' => if Ascii.eqb a "/" then false else star s'
               end) in
          match p' with
          | EmptyString => single s
          | String c1 p1 =>
              if start && Ascii.eqb c1 "*" then
                match p1 with
                | EmptyString => true
                | String c2 p2 =>
                    if Ascii.eqb c2 "/" then
                      (fix dirs (at_start : bool) (s : string) : bool :=
                         (at_start && matchFrom p2 true s) ||
                         match s with
                         | EmptyString => false
                         | String a s' => dirs (Ascii.eqb a "/") s'
                         end) true s
                    else single s
                end
              else single s
          end
        else if Ascii.eqb c "?" then
          match s with
          | EmptyString => false
          | String a s' => negb (Ascii.eqb a "/") && matchFrom p' false s'
          end
        else
          match s with
          | EmptyString => false
          | String a s' => Ascii.eqb a c && matchFrom p' (Ascii.eqb c "/") s'
          end
  end.

(** Modelled from the spec: [doublestar.Match(pattern, name)] for the
    dialect the specification describes: [*] matches within a path
    component, a component [**] matches across components, [?] matches
    one character of a component and a brace list stands for its
    alternatives.  [Some b] is the result [(b, nil)]; [None] is the result
    [(false, ErrBadPattern)].  Character classes and escapes are not
    modelled. *)
Definition Match (pattern name : string) : option bool :=
  match expand (S (String.length pattern)) pattern with
  | None => None
  | Some ps => Some (existsb (fun p => matchFrom p true name) ps)
  end.

End doublestar.

(** ** Package [agent]: the heartbeat files *)

Module agent.

Record Agent : Type := {
  ID : string;
  Name : string;
  StartedAt : time.Time;
  LastHeartbeat : time.Time;
  CurrentTask : string;
  LocksHeld : list string;
  PID : Z
}.

(** A file of the [agents] directory: its modification time and the
    record it holds. *)
Record File : Type := {
  ModTime : time.Time;
  Data : Agent
}.

(** The [agents] directory, keyed by the path below it. *)
Abbreviation Dir := (gmap string File).

Inductive error : Type :=
| ErrNotExist.

(** [agentPath], below [<coordDir>/agents]. *)
Definition agentPath (id : string) : string :=
  let safe := strings.ReplaceAll id "/" "-" in
  let safe := strings.ReplaceAll safe "\" "-" in
  safe +:+ ".agent".

(** [save]: [os.WriteFile] at the clock reading [now]. *)
Definition save (now : time.Time) (d : Dir) (a : Agent) : Dir :=
  <[agentPath (ID a) := {| ModTime := now; Data := a |}]> d.

Definition Read (d : Dir) (id : string) : Agent + error :=
  match d !! agentPath id with
  | Some f => inl (Data f)
  | None => inr ErrNotExist
  end.

Definition Register (now : time.Time) (pid : Z) (d : Dir) (id name : string)
  : Dir :=
  save now d
    {| ID := id; Name := name; StartedAt := now; LastHeartbeat := now;
       CurrentTask := ""; LocksHeld := []; PID := pid |}.

Definition Deregister (d : Dir) (id : string) : Dir :=
  delete (agentPath id) d.

Definition Heartbeat (now : time.Time) (pid : Z) (d : Dir) (id : string)
  : Dir :=
  match Read d id with
  | inr _ => Register now pid d id ""
  | inl a =>
      save now d
        {| ID := ID a; Name := Name a; StartedAt := StartedAt a;
           LastHeartbeat := now; CurrentTask := CurrentTask a;
           LocksHeld := LocksHeld a; PID := PID a |}
  end.

Definition UpdateTask (now : time.Time) (d : Dir) (id task : string)
  : Dir * option error :=
  match Read d id with
  | inr e => (d, Some e)
  | inl a =>
      (save now d
         {| ID := ID a; Name := Name a; StartedAt := StartedAt a;
            LastHeartbeat := now; CurrentTask := task;
            LocksHeld := LocksHeld a; PID := PID a |}, None)
  end.

Definition UpdateLocks (now : time.Time) (d : Dir) (id : string)
    (locks : list string) : Dir * option error :=
  match Read d id with
  | inr e => (d, Some e)
  | inl a =>
      (save now d
         {| ID := ID a; Name := Name a; StartedAt := StartedAt a;
            LastHeartbeat := now; CurrentTask := CurrentTask a;
            LocksHeld := locks; PID := PID a |}, None)
  end.

(** [IsAlive]. *)
Definition IsAlive (cfg : config.Config) (now : time.Time) (a : Agent)
  : bool :=
  let threshold :=
    time.Seconds (config.StaleThreshold (config.ConfigSettings cfg)) in
  time.Since now (LastHeartbeat a) <? threshold.

(** The order of two directory entries by file name. *)
Definition byName (a b : string * File) : Prop := String.leb a.1 b.1 = true.

#[global]
Instance byName_dec : RelDecision byName :=
  fun a b => decide (String.leb a.1 b.1 = true).

(** The entries of the directory in the order of [os.ReadDir]. *)
Definition entries (d : Dir) : list (string * File) :=
  merge_sort byName (map_to_list d).

Fixpoint listEntries (es : list (string * File)) : list Agent :=
  match es with
  | [] => []
  | (name, f) :: es' =>
      if negb (strings.HasSuffix name ".agent") then listEntries es'
      else Data f :: listEntries es'
  end.

(** [List]. *)
Definition List (d : Dir) : list Agent := listEntries (entries d).

(** The loop of [CleanStale]. *)
Fixpoint cleanEach (cfg : config.Config) (now : time.Time) (d : Dir)
    (agents : list Agent) (cleaned : list string) : Dir * list string :=
  match agents with
  | [] => (d, cleaned)
  | a :: rest =>
      if negb (IsAlive cfg now a)
      then cleanEach cfg now (Deregister d (ID a)) rest (cleaned ++ [ID a])
      else cleanEach cfg now d rest cleaned
  end.

Definition CleanStale (cfg : config.Config) (now : time.Time) (d : Dir)
    : Dir * list string :=
  cleanEach cfg now d (List d) [].

(** Decimal digits of a number, as [%d] prints them. *)
Definition itoa (n : Z) : string := NilZero.string_of_int (Z.to_int n).

(** [GenerateID], in the process [pid] at the clock reading [now]. *)
Definition GenerateID (pid : Z) (now : time.Time) : string :=
  "agent-" +:+ itoa pid +:+ "-" +:+ itoa (Z.rem now 100000).

End agent.

(** ** Package [lock]: the lock manager *)

Module lock.

Record Lock : Type := {
  Resource : string;
  AgentID : string;
  AgentName : string;
  Operation : string;
  AcquiredAt : time.Time;
  TTLSeconds : Z;
  PID : Z
}.

Record Manager : Type := {
  coordDir : string;
  cfg : config.Config
}.

(** *** The [locks] directory *)

(** A file of the [locks] directory: its inode and what [json.Unmarshal]
    makes of its bytes. *)
Record File : Type := {
  Ino : nat;
  Data : option Lock
}.

(** The directory entries, in the order of [os.ReadDir]: sorted by file
    name. *)
Abbreviation Dir := (list (string * File)).

Fixpoint lookupFile (name : string) (d : Dir) : option File :=
  match d with
  | [] => None
  | (n, f) :: d' => if String.eqb n name then Some f else lookupFile name d'
  end.

(** A new entry takes its place in the order of the names. *)
Fixpoint createFile (name : string) (f : File) (d : Dir) : Dir :=
  match d with
  | [] => [(name, f)]
  | (n, g) :: d' =>
      if String.ltb name n then (name, f) :: (n, g) :: d'
      else (n, g) :: createFile name f d'
  end.

Fixpoint removeFile (name : string) (d : Dir) : Dir :=
  match d with
  | [] => []
  | (n, f) :: d' =>
      if String.eqb n name then removeFile name d'
      else (n, f) :: removeFile name d'
  end.

(** A write through a file descriptor reaches the inode the descriptor was
    opened on: the entry [name] if it still is that inode, and nothing if
    the file has been removed (and perhaps created anew) since. *)
Fixpoint writeIno (name : string) (ino : nat) (data : option Lock) (d : Dir)
    : Dir :=
  match d with
  | [] => []
  | (n, f) :: d' =>
      if String.eqb n name && Nat.eqb (Ino f) ino
      then (n, {| Ino := ino; Data := data |}) :: writeIno name ino data d'
      else (n, f) :: writeIno name ino data d'
  end.

(** The coordination directory. *)
Record World : Type := {
  locks : Dir;
  agents : agent.Dir;
  now : time.Time;
  nextIno : nat
}.

Definition setLocks (d : Dir) (w : World) : World :=
  {| locks := d; agents := agents w; now := now w; nextIno := nextIno w |}.

Definition setNow (t : time.Time) (w : World) : World :=
  {| locks := locks w; agents := agents w; now := t; nextIno := nextIno w |}.

Definition setAgents (a : agent.Dir) (w : World) : World :=
  {| locks := locks w; agents := a; now := now w; nextIno := nextIno w |}.

(** The errors of the package: those of the system calls and of
    [json.Unmarshal], and the messages the manager builds.
    - [ErrLocked]: "resource '%s' is locked by agent '%s' (%s): %s", the
      conflict error of [Acquire];
    - [ErrAcquire]: "failed to acquire lock: %w", around the error of the
      exclusive create;
    - [ErrOwner]: "lock owned by different agent: %s";
    - [ErrReleaseSome]: "failed to release some locks: %v";
    - [ErrLockedBy]: "resource locked by %s: %s", the conflict error of
      [CheckOrAcquire]. *)
#[warnings="-register-all"]
Inductive error : Type :=
| ErrNotExist
| ErrExist
| ErrUnmarshal
| ErrLocked (resource agentID agentName operation : string)
| ErrAcquire
| ErrOwner (agentID : string)
| ErrReleaseSome (errs : list error)
| ErrLockedBy (agentID operation : string).

(** [syscall.Open(path, O_CREAT|O_EXCL|O_WRONLY, 0644)]: the descriptor of
    a new empty file, or "file exists". *)
Definition openExcl (path : string) (w : World) : World * (nat + error) :=
  match lookupFile path (locks w) with
  | Some _ => (w, inr ErrExist)
  | None =>
      ({| locks :=
            createFile path {| Ino := nextIno w; Data := None |} (locks w);
          agents := agents w; now := now w; nextIno := S (nextIno w) |},
       inl (nextIno w))
  end.

(** [syscall.Write(fd, data)] where [fd] was opened on [path] and [data]
    is the marshalled [lock]. *)
Definition fdWrite (path : string) (fd : nat) (lock : Lock) (w : World)
    : World :=
  setLocks (writeIno path fd (Some lock) (locks w)) w.

(** [os.Remove(path)]. *)
Definition osRemove (path : string) (w : World) : World * option error :=
  match lookupFile path (locks w) with
  | Some _ => (setLocks (removeFile path (locks w)) w, None)
  | None => (w, Some ErrNotExist)
  end.

(** *** The manager's methods *)

(** [lockPath], below [<coordDir>/locks]. *)
Definition lockPath (resource : string) : string :=
  let safe := strings.ReplaceAll resource "/" "-" in
  let safe := strings.ReplaceAll safe "\" "-" in
  let safe := strings.ReplaceAll safe "*" "_" in
  let safe := strings.ReplaceAll safe "?" "_" in
  safe +:+ ".lock".

Definition Read (w : World) (resource : string) : Lock + error :=
  match lookupFile (lockPath resource) (locks w) with
  | None => inr ErrNotExist
  | Some f =>
      match Data f with
      | None => inr ErrUnmarshal
      | Some lock => inl lock
      end
  end.

Fixpoint listDir (d : Dir) : list Lock :=
  match d with
  | [] => []
  | (name, f) :: d' =>
      if negb (strings.HasSuffix name ".lock") then listDir d'
      else
        match Data f with
        | None => listDir d'
        | Some lock => lock :: listDir d'
        end
  end.

Definition List (w : World) : list Lock := listDir (locks w).

(** The path [IsStale] stats, below [<coordDir>/agents]. *)
Definition heartbeatPath (lock : Lock) : string :=
  AgentID lock +:+ ".agent".

(** [IsStale]; the three clock readings of the method are one reading. *)
Definition IsStale (m : Manager) (w : World) (lock : Lock) : bool :=
  let threshold :=
    time.Seconds (config.StaleThreshold (config.ConfigSettings (cfg m))) in
  if time.Since (now w) (AcquiredAt lock) >? time.Seconds (TTLSeconds lock)
  then true
  else
    match agents w !! heartbeatPath lock with
    | None =>
        if time.Since (now w) (AcquiredAt lock) >? threshold then true
        else false
    | Some info =>
        if time.Since (now w) (agent.ModTime info) >? threshold then true
        else false
    end.

(** [if ttl == 0 { ttl = m.cfg.Settings.DefaultTTL }]. *)
Definition resolveTTL (m : Manager) (ttl : Z) : Z :=
  if ttl =? 0 then config.SettingsDefaultTTL (config.ConfigSettings (cfg m))
  else ttl.

(** The lock [Acquire] builds, [ttl] being resolved. *)
Definition newLock (w : World) (pid : Z)
    (resource agentID agentName operation : string) (ttl : Z) : Lock :=
  {| Resource := resource; AgentID := agentID; AgentName := agentName;
     Operation := operation; AcquiredAt := now w; TTLSeconds := ttl;
     PID := pid |}.

Definition lockedError (resource : string) (existing : Lock) : error :=
  ErrLocked resource (AgentID existing) (AgentName existing)
    (Operation existing).

(** [Acquire], run without interference from other processes.  The
    directories exist ([config.EnsureDirs] succeeds) and the write of the
    lock succeeds.  [fuel] bounds the depth of the recursion; [None] means
    it was not enough. *)
Fixpoint Acquire (fuel : nat) (m : Manager) (pid : Z) (w : World)
    (resource agentID agentName operation : string) (ttl : Z)
    : option (World * option error) :=
  match fuel with
  | O => None
  | S fuel' =>
      let ttl := resolveTTL m ttl in
      let path := lockPath resource in
      let lock := newLock w pid resource agentID agentName operation ttl in
      match openExcl path w with
      | (_, inr _) =>
          match Read w resource with
          | inl existing =>
              if IsStale m w existing then
                match osRemove path w with
                | (w', None) =>
                    Acquire fuel' m pid w' resource agentID agentName
                      operation ttl
                | (_, Some _) => Some (w, Some (lockedError resource existing))
                end
              else Some (w, Some (lockedError resource existing))
          | inr _ => Some (w, Some ErrAcquire)
          end
      | (w', inl fd) => Some (fdWrite path fd lock w', None)
      end
  end.

Definition Release (w : World) (resource agentID : string)
    : World * option error :=
  let path := lockPath resource in
  match Read w resource with
  | inr ErrNotExist => (w, None)
  | inr err => (w, Some err)
  | inl existing =>
      if negb (String.eqb (AgentID existing) agentID)
      then (w, Some (ErrOwner (AgentID existing)))
      else osRemove path w
  end.

(** The loop of [ReleaseAll] over the locks listed at its start. *)
Fixpoint releaseEach (w : World) (agentID : string) (ls : list Lock)
    (errs : list error) : World * list error :=
  match ls with
  | [] => (w, errs)
  | lock :: ls' =>
      if String.eqb (AgentID lock) agentID then
        match Release w (Resource lock) agentID with
        | (w', Some err) => releaseEach w' agentID ls' (errs ++ [err])
        | (w', None) => releaseEach w' agentID ls' errs
        end
      else releaseEach w agentID ls' errs
  end.

Definition ReleaseAll (w : World) (agentID : string) : World * option error :=
  let '(w', errs) := releaseEach w agentID (List w) [] in
  if (0 <? length errs)%nat then (w', Some (ErrReleaseSome errs))
  else (w', None).

(** The loop of [CleanStale]. *)
Fixpoint cleanEach (m : Manager) (w : World) (ls : list Lock)
    (cleaned : list string) : World * list string :=
  match ls with
  | [] => (w, cleaned)
  | lock :: ls' =>
      if IsStale m w lock then
        match osRemove (lockPath (Resource lock)) w with
        | (w', None) => cleanEach m w' ls' (cleaned ++ [Resource lock])
        | (w', Some _) => cleanEach m w' ls' cleaned
        end
      else cleanEach m w ls' cleaned
  end.

Definition CleanStale (m : Manager) (w : World) : World * list string :=
  cleanEach m w (List w) [].

Section Matcher.

(** [doublestar.Match]: [Some b] for [(b, nil)], [None] for an error. *)
Variable Match : string -> string -> option bool.

(** The first loop of [Check]: the first configured pattern that matches
    the file; a pattern that is in error is skipped. *)
Fixpoint matchedPattern (filePath : string)
    (protected : list config.ProtectedPath) : option string :=
  match protected with
  | [] => None
  | p :: rest =>
      match Match (config.Pattern p) filePath with
      | None => matchedPattern filePath rest
      | Some matched =>
          if matched then Some (config.Pattern p)
          else matchedPattern filePath rest
      end
  end.

(** The second loop of [Check]: the first listed lock on the matched
    pattern or on a resource that matches the file. *)
Fixpoint coveringLock (filePath pattern : string) (ls : list Lock)
    : option Lock :=
  match ls with
  | [] => None
  | lock :: rest =>
      if String.eqb (Resource lock) pattern then Some lock
      else
        match Match (Resource lock) filePath with
        | Some true => Some lock
        | _ => coveringLock filePath pattern rest
        end
  end.

Definition Check (m : Manager) (w : World) (filePath : string)
    : option Lock * bool :=
  match matchedPattern filePath (config.Protected (cfg m)) with
  | None => (None, false)
  | Some pattern => (coveringLock filePath pattern (List w), true)
  end.

(** The loop of [CheckOrAcquire] that finds the resource to lock. *)
Fixpoint resourceFor (filePath : string)
    (protected : list config.ProtectedPath) : string :=
  match protected with
  | [] => ""
  | p :: rest =>
      match Match (config.Pattern p) filePath with
      | Some true => config.Pattern p
      | _ => resourceFor filePath rest
      end
  end.

Definition CheckOrAcquire (fuel : nat) (m : Manager) (pid : Z) (w : World)
    (filePath agentID agentName operation : string)
    : option (World * (option Lock * option error)) :=
  match Check m w filePath with
  | (_, false) => Some (w, (None, None))
  | (Some lock, true) =>
      if String.eqb (AgentID lock) agentID then Some (w, (Some lock, None))
      else
        Some (w, (Some lock,
                  Some (ErrLockedBy (AgentID lock) (Operation lock))))
  | (None, true) =>
      let resource := resourceFor filePath (config.Protected (cfg m)) in
      match Acquire fuel m pid w resource agentID agentName operation 0 with
      | None => None
      | Some (w', Some err) => Some (w', (None, Some err))
      | Some (w', None) =>
          match Read w' resource with
          | inl lock => Some (w', (Some lock, None))
          | inr err => Some (w', (None, Some err))
          end
      end
  end.

End Matcher.

(** *** [Acquire], one system call at a time

    The calls of several processes interleave at their system calls.  A
    process is at one of the points of [Acquire] below; [step] makes its
    next system call on the shared directory. *)

Record Call : Type := {
  callPid : Z;
  callResource : string;
  callAgentID : string;
  callAgentName : string;
  callOperation : string;
  callTTL : Z
}.

Inductive Pc : Type :=
| AtOpen
| AtWrite (fd : nat) (lock : Lock)
| AtRead
| AtIsStale (existing : Lock)
| AtRemove (existing : Lock)
| Returned (err : option error).

(** [reclaims] counts the stale locks the call has removed; the program
    keeps no such counter. *)
Record Proc : Type := {
  call : Call;
  pc : Pc;
  reclaims : nat
}.

Definition start (c : Call) : Proc :=
  {| call := c; pc := AtOpen; reclaims := 0 |}.

Definition goto (p : Proc) (l : Pc) : Proc :=
  {| call := call p; pc := l; reclaims := reclaims p |}.

(** The lock the call builds when it enters [Acquire] at the clock reading
    of [w].  The recursive call passes the resolved [ttl], and resolving
    it again changes nothing. *)
Definition callLock (m : Manager) (w : World) (c : Call) : Lock :=
  newLock w (callPid c) (callResource c) (callAgentID c) (callAgentName c)
    (callOperation c) (resolveTTL m (callTTL c)).

(** The points are: [AtOpen], before [syscall.Open] (the lock is built
    with the clock reading of this step); [AtWrite], before
    [syscall.Write]; [AtRead], before [m.Read] after a failed create;
    [AtIsStale], before [m.IsStale]; [AtRemove], before [os.Remove];
    [Returned], after the return.  A successful remove re-enters [Acquire]
    at [AtOpen]. *)
Definition step (m : Manager) (w : World) (p : Proc) : World * Proc :=
  let resource := callResource (call p) in
  let path := lockPath resource in
  match pc p with
  | AtOpen =>
      match openExcl path w with
      | (w', inl fd) => (w', goto p (AtWrite fd (callLock m w (call p))))
      | (w', inr _) => (w', goto p AtRead)
      end
  | AtWrite fd lock => (fdWrite path fd lock w, goto p (Returned None))
  | AtRead =>
      match Read w resource with
      | inl existing => (w, goto p (AtIsStale existing))
      | inr _ => (w, goto p (Returned (Some ErrAcquire)))
      end
  | AtIsStale existing =>
      if IsStale m w existing then (w, goto p (AtRemove existing))
      else (w, goto p (Returned (Some (lockedError resource existing))))
  | AtRemove existing =>
      match osRemove path w with
      | (w', None) =>
          (w', {| call := call p; pc := AtOpen; reclaims := S (reclaims p) |})
      | (w', Some _) =>
          (w', goto p (Returned (Some (lockedError resource existing))))
      end
  | Returned _ => (w, p)
  end.

(** A schedule is a sequence of events: process [i] makes its next system
    call, or the clock advances by [d] nanoseconds.  The heartbeat files
    do not change in the course of a schedule. *)
Inductive Event : Type :=
| Run (i : nat)
| Tick (d : N).

Record System : Type := {
  world : World;
  procs : list Proc
}.

Definition fire (m : Manager) (s : System) (e : Event) : System :=
  match e with
  | Tick d =>
      {| world := setNow (now (world s) + Z.of_N d) (world s);
         procs := procs s |}
  | Run i =>
      match procs s !! i with
      | None => s
      | Some p =>
          let '(w', p') := step m (world s) p in
          {| world := w'; procs := <[i := p']> (procs s) |}
      end
  end.

Definition exec (m : Manager) (sched : list Event) (s : System) : System :=
  fold_left (fire m) sched s.

Definition boot (w : World) (calls : list Call) : System :=
  {| world := w; procs := start <$> calls |}.

End lock.

(** ** Package [cache]: the files known not to be protected *)

Module cache.

Record Cache : Type := {
  ConfigHash : string;
  NotProtected : gmap string bool
}.

Definition new : Cache := {| ConfigHash := ""; NotProtected := empty |}.

(** [Load]; [file] is what [json.Unmarshal] makes of [check-cache.json],
    [None] when the file cannot be read.  The map of the file is a JSON
    object, as [Save] writes it. *)
Definition Load (file : option Cache) : Cache :=
  match file with
  | None => new
  | Some c => c
  end.

Section Hash.

(** The first eight bytes, in hexadecimal, of the SHA-256 sum of the JSON
    array of the patterns. *)
Variable sum : list string -> string.

Definition hashConfig (cfg : config.Config) : string :=
  sum (config.Pattern <$> config.Protected cfg).

Definition IsValid (c : Cache) (cfg : config.Config) : bool :=
  String.eqb (ConfigHash c) (hashConfig cfg).

Definition Reset (c : Cache) (cfg : config.Config) : Cache :=
  {| ConfigHash := hashConfig cfg; NotProtected := empty |}.

End Hash.

Definition IsNotProtected (c : Cache) (filePath : string) : bool :=
  match NotProtected c !! filePath with
  | Some b => b
  | None => false
  end.

Definition MarkNotProtected (c : Cache) (filePath : string) : Cache :=
  {| ConfigHash := ConfigHash c;
     NotProtected := <[filePath := true]> (NotProtected c) |}.

End cache.

(** ** Package [cli]: the commands over the managers *)

Module cli.

(** The errors the commands build:
    - [ErrTimeout]: "timeout waiting for %s (locked by %s)";
    - [ErrBlocked]: "blocked by %d lock(s)";
    - [ErrAgentRequired]: "agent ID required";
    - [ErrUsage]: "specify a resource or use --all". *)
Inductive error : Type :=
| ErrTimeout (resource agentID : string)
| ErrBlocked (n : nat)
| ErrAgentRequired
| ErrUsage.




(** [runWait]: the loop reads the directory once per round; [polls] are
    the states of the directory it finds, round after round, and [start]
    is the clock reading at its start.  [None]: the loop is still waiting
    after the last of them. *)
Fixpoint runWait (m : lock.Manager) (waitTimeout : Z) (resource : string)
    (start : time.Time) (polls : list lock.World) : option (option error) :=
  match polls with
  | [] => None
  | w :: rest =>
      match lock.Read w resource with
      | inr _ => Some None
      | inl existingLock =>
          if lock.IsStale m w existingLock then Some None
          else if (waitTimeout >? 0)
                  && (time.Since (lock.now w) start
                      >? time.Seconds waitTimeout)
          then Some (Some (ErrTimeout resource (lock.AgentID existingLock)))
          else runWait m waitTimeout resource start rest
      end
  end.

(** [runDeregister]; [flagID] is the flag [--agent], [envID] the variable
    [CLAUDE_SESSION_ID] and [release] the flag [--release-all]. *)
Definition runDeregister (flagID envID : string) (release : bool)
    (w : lock.World) : lock.World * option error :=
  let agentID := if String.eqb flagID "" then envID else flagID in
  if String.eqb agentID "" then (w, Some ErrAgentRequired)
  else
    let w1 := if release then (lock.ReleaseAll w agentID).1 else w in
    (lock.setAgents (agent.Deregister (lock.agents w1) agentID) w1, None).


(** The state of the loop of [runCheck]. *)
Record CheckState : Type := {
  stWorld : lock.World;
  stCache : cache.Cache;
  stModified : bool;
  stBlocked : list string;
  stAcquired : list string
}.

(** A round of the loop ends, or panics on a nil pointer, the directory
    being [w]. *)
Inductive Outcome : Type :=
| Finished (st : CheckState)
| Panicked (w : lock.World).

(** [fmt.Sprintf("%s (locked by %s: %s)", f, l.AgentID, l.Operation)]. *)
Definition blockedLine (f : string) (l : lock.Lock) : string :=
  f +:+ " (locked by " +:+ lock.AgentID l +:+ ": " +:+ lock.Operation l
    +:+ ")".

Definition markNotProtected (st : CheckState) (f : string) : CheckState :=
  {| stWorld := stWorld st;
     stCache := cache.MarkNotProtected (stCache st) f;
     stModified := true;
     stBlocked := stBlocked st;
     stAcquired := stAcquired st |}.

Definition block (st : CheckState) (w : lock.World) (f : string)
    (l : lock.Lock) : CheckState :=
  {| stWorld := w; stCache := stCache st; stModified := stModified st;
     stBlocked := stBlocked st ++ [blockedLine f l];
     stAcquired := stAcquired st |}.

Definition acquired (st : CheckState) (w : lock.World) (f : string)
    : CheckState :=
  {| stWorld := w; stCache := stCache st; stModified := stModified st;
     stBlocked := stBlocked st; stAcquired := stAcquired st ++ [f] |}.

(** What [runCheck] leaves: the directory, the cache file, the files it
    acquired a lock for, the lines of the blocked files and its error. *)
Record CheckResult : Type := {
  resWorld : lock.World;
  resCacheFile : option cache.Cache;
  resAcquired : list string;
  resBlocked : list string;
  resError : option error
}.

Section Check.

Variable Match : string -> string -> option bool.
Variable sum : list string -> string.

(** [strings.Fields] and [strings.TrimSpace]. *)
Variable Fields : string -> list string.
Variable TrimSpace : string -> string.

Definition splitFiles (input : string) : list string :=
  let input := strings.ReplaceAll input "," " " in
  let input := strings.ReplaceAll input ";" " " in
  List.filter (fun f => negb (String.eqb f ""))
    (TrimSpace <$> Fields input).

Variable fuel : nat.
Variable m : lock.Manager.
Variable pid : Z.

(** The flags [--acquire], [--name], [--op] and the agent ID. *)
Variable checkAcquire : bool.
Variables agentID checkAgentName checkOperation : string.

(** The body of the loop for the file [f]; [None] when [fuel] does not
    suffice for [CheckOrAcquire]. *)
Definition checkFile (st : CheckState) (f : string) : option Outcome :=
  if cache.IsNotProtected (stCache st) f then Some (Finished st)
  else if checkAcquire then
    match lock.CheckOrAcquire Match fuel m pid (stWorld st) f agentID
            checkAgentName checkOperation with
    | None => None
    | Some (w, (existingLock, Some err)) =>
        match existingLock with
        | Some l => Some (Finished (block st w f l))
        | None => Some (Panicked w)
        end
    | Some (w, (Some l, None)) => Some (Finished (acquired st w f))
    | Some (w, (None, None)) =>
        Some (Finished
                (markNotProtected
                   {| stWorld := w; stCache := stCache st;
                      stModified := stModified st;
                      stBlocked := stBlocked st;
                      stAcquired := stAcquired st |} f))
    end
  else
    match lock.Check Match m (stWorld st) f with
    | (existingLock, protected) =>
        if negb protected then Some (Finished (markNotProtected st f))
        else
          match existingLock with
          | Some l =>
              if negb (String.eqb (lock.AgentID l) agentID)
              then Some (Finished (block st (stWorld st) f l))
              else Some (Finished st)
          | None => Some (Finished st)
          end
    end.

Fixpoint checkFiles (st : CheckState) (files : list string)
    : option Outcome :=
  match files with
  | [] => Some (Finished st)
  | f :: rest =>
      match checkFile st f with
      | Some (Finished st') => checkFiles st' rest
      | r => r
      end
  end.

(** [runCheck]; [cacheFile] is the cache file, [None] when there is
    none.  [inr w] is a panic that leaves the directory [w]. *)
Definition runCheck (cacheFile : option cache.Cache) (args : list string)
    (w : lock.World) : option (CheckResult + lock.World) :=
  let checkCache := cache.Load cacheFile in
  let checkCache :=
    if negb (cache.IsValid sum checkCache (lock.cfg m))
    then cache.Reset sum checkCache (lock.cfg m)
    else checkCache in
  match checkFiles
          {| stWorld := w; stCache := checkCache; stModified := false;
             stBlocked := []; stAcquired := [] |}
          (flat_map splitFiles args) with
  | None => None
  | Some (Panicked w') => Some (inr w')
  | Some (Finished st) =>
      Some (inl
              {| resWorld := stWorld st;
                 resCacheFile :=
                   if stModified st then Some (stCache st) else cacheFile;
                 resAcquired := stAcquired st;
                 resBlocked := stBlocked st;
                 resError :=
                   if (0 <? length (stBlocked st))%nat
                   then Some (ErrBlocked (length (stBlocked st)))
                   else None |})
  end.

End Check.

End cli.

(** ** Vocabulary of the properties *)

Import lock.

(** Byte-wise image of a string. *)
Fixpoint mapString (f : ascii -> ascii) (s : string) : string :=
  match s with
  | EmptyString => EmptyString
  | String c s' => String (f c) (mapString f s')
  end.

(** The filler the lock store gives to one byte of a resource. *)
Definition lockFiller (c : ascii) : ascii :=
  if Ascii.eqb c "/" || Ascii.eqb c "\" then "-"%char
  else if Ascii.eqb c "*" || Ascii.eqb c "?" then "_"%char
  else c.

(** The filler the agent registry gives to one byte of an agent ID. *)
Definition agentFiller (c : ascii) : ascii :=
  if Ascii.eqb c "/" || Ascii.eqb c "\" then "-"%char else c.

(** A number of seconds whose count of nanoseconds fits a [Duration]. *)
Definition secondsFit (n : Z) : Prop :=
  -9223372036 <= n <= 9223372036.

Definition staleThreshold (m : Manager) : Z :=
  config.StaleThreshold (config.ConfigSettings (cfg m)).

(** The pattern of [p] does not match the file (or is in error). *)
Definition misses (Match : string -> string -> option bool)
    (filePath : string) (p : config.ProtectedPath) : Prop :=
  Match (config.Pattern p) filePath <> Some true.

(** The entries are in the strict order of their names, the order in
    which [os.ReadDir] returns them. *)
Fixpoint sortedDir (d : Dir) : Prop :=
  match d with
  | [] => True
  | (n, _) :: d' =>
      Forall (fun e => String.ltb n e.1 = true) d' /\ sortedDir d'
  end.

(** An agent ID without path separators. *)
Definition plainID (id : string) : Prop :=
  mapString agentFiller id = id.

(** No two entries of the directory have the same name. *)
Fixpoint uniqueNames (d : Dir) : Prop :=
  match d with
  | [] => True
  | (n, _) :: d' => lookupFile n d' = None /\ uniqueNames d'
  end.

(** Every readable lock file has the name [lockPath] gives its resource,
    as the files [Acquire] creates have. *)
Definition keyedByResource (d : Dir) : Prop :=
  Forall (fun e => forall l, Data e.2 = Some l -> e.1 = lockPath (Resource l))
    d.

Definition wfDir (d : Dir) : Prop := uniqueNames d /\ keyedByResource d.

(** The directory without the locks of [agentID]. *)
Fixpoint dropOwned (agentID : string) (d : Dir) : Dir :=
  match d with
  | [] => []
  | (n, f) :: d' =>
      match Data f with
      | Some l =>
          if String.eqb (AgentID l) agentID then dropOwned agentID d'
          else (n, f) :: dropOwned agentID d'
      | None => (n, f) :: dropOwned agentID d'
      end
  end.

(** [Release] of the listed lock [l] by [agentID] cannot fail in [w]: the
    record under the key of its resource is absent or is a lock of
    [agentID]. *)
Definition releasable (agentID : string) (w : World) (l : Lock) : Prop :=
  match Read w (Resource l) with
  | inl l' => AgentID l' = agentID
  | inr ErrNotExist => True
  | inr _ => False
  end.

(** [w'] is [w] with some lock files removed. *)
Definition shrinks (w w' : World) : Prop :=
  (forall name,
     lookupFile name (locks w') = lookupFile name (locks w) \/
     lookupFile name (locks w') = None) /\
  agents w' = agents w /\ now w' = now w.

(** The three locks of the test [TestReleaseAll]. *)
Definition testLock (resource agentID operation : string) : Lock :=
  {| Resource := resource; AgentID := agentID; AgentName := "";
     Operation := operation; AcquiredAt := 0; TTLSeconds := 300; PID := 1 |}.

Definition testWorld : World :=
  {| locks :=
       [ ("resource-1.lock",
          {| Ino := 0; Data := Some (testLock "resource-1" "agent-1" "task 1") |});
         ("resource-2.lock",
          {| Ino := 1; Data := Some (testLock "resource-2" "agent-1" "task 2") |});
         ("resource-3.lock",
          {| Ino := 2; Data := Some (testLock "resource-3" "agent-2" "task 3") |}) ];
     agents := empty; now := 0; nextIno := 3 |}.



(** A configuration with two patterns that overlap on the Go test files
    below [src], and the directory after [agent-2] has called
    [CheckOrAcquire] on [pkg/b_test.go] and [agent-1] on [src/main.go]. *)
Definition overlapManager : Manager :=
  {| coordDir := ".claude-coord";
     cfg :=
       {| config.Protected :=
            [ config.pp "src/**/*.go" "Sources" "";
              config.pp "**/*_test.go" "Tests" "" ];
          config.ConfigSettings := config.ConfigSettings config.DefaultConfig |} |}.

Definition overlapLock (resource agentID : string) : Lock :=
  {| Resource := resource; AgentID := agentID; AgentName := "";
     Operation := "edit"; AcquiredAt := 0; TTLSeconds := 300; PID := 1 |}.

Definition overlapWorld : World :=
  {| locks :=
       [ ("__-__test.go.lock",
          {| Ino := 0; Data := Some (overlapLock "**/*_test.go" "agent-2") |});
         ("src-__-_.go.lock",
          {| Ino := 1; Data := Some (overlapLock "src/**/*.go" "agent-1") |}) ];
     agents := empty; now := 0; nextIno := 2 |}.











(** A call of [Acquire] on [db/schema/*] with the default TTL. *)
Definition raceCall (pid : Z) (agentID : string) : Call :=
  {| callPid := pid; callResource := "db/schema/*"; callAgentID := agentID;
     callAgentName := ""; callOperation := "migrate"; callTTL := 0 |}.

(** The heartbeat files as the registry writes them: [save] stamps the
    record with the clock reading at which it writes the file. *)
Definition savedByRegistry (d : agent.Dir) : Prop :=
  forall path f,
    d !! path = Some f -> agent.ModTime f = agent.LastHeartbeat (agent.Data f).

(** The manager of the default configuration, and an empty
    coordination directory. *)
Definition defaultManager : Manager :=
  {| coordDir := ".claude-coord"; cfg := config.DefaultConfig |}.

Definition emptyWorld (t : time.Time) : World :=
  {| locks := []; agents := empty; now := t; nextIno := 0 |}.

Definition heartbeatAt (t : time.Time) (id : string) : agent.File :=
  {| agent.ModTime := t;
     agent.Data :=
       {| agent.ID := id; agent.Name := ""; agent.StartedAt := t;
          agent.LastHeartbeat := t; agent.CurrentTask := "";
          agent.LocksHeld := []; agent.PID := 1 |} |}.

(** A directory without locks, two hundred seconds after [agent-1] wrote
    its last heartbeat. *)
Definition lateWorld (ino : nat) : World :=
  {| locks := [];
     agents := {[ "agent-1.agent" := heartbeatAt 0 "agent-1" ]};
     now := 200000000000; nextIno := ino |}.

(** A contended reclaim: the call of [agent-2] against [k] calls of
    [agent-1], whose lock is stale as soon as it is taken because its
    heartbeat file is old.  In round [i] the [i]-th call of [agent-1]
    takes the lock (two system calls) and the call of [agent-2] collides
    with it, finds it stale and removes it (four system calls). *)
Definition victim : Call := raceCall 2 "agent-2".

Definition intruder : Call := raceCall 1 "agent-1".

Definition stormCalls (k : nat) : list Call := victim :: replicate k intruder.

Definition stormRound (i : nat) : list Event :=
  [Run i; Run i; Run 0; Run 0; Run 0; Run 0].

Definition stormSched (k : nat) : list Event :=
  flat_map stormRound (seq 1 k) ++ [Run 0; Run 0].

(** A lock of one second on the database pattern, taken at time [0] by
    [agent-1], and the directory that holds it at clock reading [t] with
    the heartbeat file of [agent-1] last written at [beat]. *)
Definition shortLock : Lock :=
  {| Resource := "db/**/*"; AgentID := "agent-1"; AgentName := "";
     Operation := "migrate"; AcquiredAt := 0; TTLSeconds := 1; PID := 1 |}.

Definition shortLockWorld (t beat : time.Time) : World :=
  {| locks := [(lockPath "db/**/*", {| Ino := 0; Data := Some shortLock |})];
     agents := {[ "agent-1.agent" := heartbeatAt beat "agent-1" ]};
     now := t; nextIno := 1 |}.

(** The directory once a process has created and written [lock] at
    [path]. *)
Definition withLock (path : string) (lock : Lock) (w : World) : World :=
  {| locks :=
       createFile path {| Ino := nextIno w; Data := Some lock |} (locks w);
     agents := agents w; now := now w; nextIno := S (nextIno w) |}.

(** The directory once the file at [path] is removed. *)
Definition without (path : string) (w : World) : World :=
  setLocks (removeFile path (locks w)) w.

(** The byte [c] occurs in the string. *)
Fixpoint occurs (c : ascii) (s : string) : bool :=
  match s with
  | EmptyString => false
  | String a s' => Ascii.eqb a c || occurs c s'
  end.

(** The directory without the lock files whose lock is stale in [w]. *)
Fixpoint dropStale (m : Manager) (w : World) (d : Dir) : Dir :=
  match d with
  | [] => []
  | (n, f) :: d' =>
      match Data f with
      | Some l =>
          if IsStale m w l then dropStale m w d'
          else (n, f) :: dropStale m w d'
      | None => (n, f) :: dropStale m w d'
      end
  end.

(** Every heartbeat file is at the path the registry gives the ID of the
    record it holds, as the files [save] writes are. *)
Definition filedByID (d : agent.Dir) : Prop :=
  forall path f,
    d !! path = Some f -> path = agent.agentPath (agent.ID (agent.Data f)).

(** A race of two calls for a key that holds a stale lock: both calls
    collide with the lock, read it and judge it stale; then the first
    removes it, creates the file anew and writes its lock; then the second
    makes the remove it had decided on, and creates and writes in turn. *)
Definition bothJudge : list Event :=
  [Run 0; Run 0; Run 0; Run 1; Run 1; Run 1]%nat.

Definition firstReclaims : list Event := [Run 0; Run 0; Run 0]%nat.

Definition secondReclaims : list Event := [Run 1; Run 1; Run 1]%nat.

(** A call of [Acquire] on the database pattern with the default TTL. *)
Definition dbCall (pid : Z) (agentID : string) : Call :=
  {| callPid := pid; callResource := "db/**/*"; callAgentID := agentID;
     callAgentName := ""; callOperation := "seed"; callTTL := 0 |}.

(** The cache is right about the configuration: the files it holds as not
    protected match no pattern. *)
Definition cacheSound (Match : string -> string -> option bool)
    (cfg : config.Config) (c : cache.Cache) : Prop :=
  forall f,
    cache.IsNotProtected c f = true ->
    matchedPattern Match f (config.Protected cfg) = None.

(** The lines [check] prints for the files that are protected and covered
    by the lock of another agent. *)
Definition blockedLines (Match : string -> string -> option bool)
    (m : Manager) (agentID : string) (w : World) (files : list string)
    : list string :=
  omap
    (fun f =>
       match Check Match m w f with
       | (Some l, true) =>
           if String.eqb (AgentID l) agentID then None
           else Some (cli.blockedLine f l)
       | _ => None
       end) files.

(** The resource is locked in [w]: a lock is under its key and is not
    stale. *)
Definition held (m : Manager) (resource : string) (w : World) : Prop :=
  exists l, Read w resource = inl l /\ IsStale m w l = false.

(** The resource is available in [w], as [wait] sees it: there is no lock
    to read under its key, or the lock there is stale. *)
Definition available (m : Manager) (resource : string) (w : World) : Prop :=
  (exists err, Read w resource = inr err) \/
  (exists l, Read w resource = inl l /\ IsStale m w l = true).

(** The wait has timed out at the clock reading of [w]. *)
Definition timedOut (waitTimeout : Z) (start : time.Time) (w : World)
    : bool :=
  (waitTimeout >? 0)
  && (time.Since (now w) start >? time.Seconds waitTimeout).

(** Two states of the loop of [check] that differ in the cache at most,
    and two results of the command that differ in the cache file at
    most. *)
Definition sameRun (st st' : cli.CheckState) : Prop :=
  cli.stWorld st = cli.stWorld st' /\
  cli.stBlocked st = cli.stBlocked st' /\
  cli.stAcquired st = cli.stAcquired st'.

Definition sameOutcome (r r' : option cli.Outcome) : Prop :=
  match r, r' with
  | Some (cli.Finished st), Some (cli.Finished st') => sameRun st st'
  | Some (cli.Panicked w), Some (cli.Panicked w') => w = w'
  | None, None => True
  | _, _ => False
  end.

Definition sameResult (r r' : option (cli.CheckResult + World)) : Prop :=
  match r, r' with
  | Some (inl a), Some (inl b) =>
      cli.resWorld a = cli.resWorld b /\
      cli.resAcquired a = cli.resAcquired b /\
      cli.resBlocked a = cli.resBlocked b /\
      cli.resError a = cli.resError b
  | Some (inr w), Some (inr w') => w = w'
  | None, None => True
  | _, _ => False
  end.

(** The cache the loop of [check] starts with. *)
Definition startCache (sum : list string -> string) (cfg : config.Config)
    (cacheFile : option cache.Cache) : cache.Cache :=
  if negb (cache.IsValid sum (cache.Load cacheFile) cfg)
  then cache.Reset sum (cache.Load cacheFile) cfg
  else cache.Load cacheFile.

(** A directory in which a process has created the lock file of [go.mod]
    and not yet written it. *)
Definition halfWritten : World :=
  (openExcl (lockPath "go.mod") (emptyWorld 0)).1.


(** ** Durations *)

Lemma Seconds_fit n : secondsFit n -> time.Seconds n = n * time.Second.
Proof.
  unfold secondsFit, time.Seconds, time.wrap64, time.Second. intros H.
  rewrite Z.mod_small; lia.
Qed.

Lemma Since_gt now t d :
  time.minDuration <= d < time.maxDuration ->
  (time.Since now t >? d) = (now - t >? d).
Proof.
  unfold time.Since, time.Sub, time.minDuration, time.maxDuration. intros H.
  destruct (Z.ltb_spec (now - t) (- 2 ^ 63));
    [|destruct (Z.ltb_spec (2 ^ 63 - 1) (now - t))];
    rewrite !Z.gtb_ltb;
    repeat match goal with
           | |- context [Z.ltb ?a ?b] => destruct (Z.ltb_spec a b)
           end; try reflexivity; lia.
Qed.

Lemma Since_gt_Seconds now t n :
  secondsFit n ->
  (time.Since now t >? time.Seconds n) = (now - t >? n * time.Second).
Proof.
  intros H. rewrite (Seconds_fit n H). apply Since_gt.
  unfold secondsFit, time.minDuration, time.maxDuration, time.Second in *.
  lia.
Qed.

Lemma Since_mono now now' t t' :
  now - t <= now' - t' -> time.Since now t <= time.Since now' t'.
Proof.
  unfold time.Since, time.Sub, time.minDuration, time.maxDuration. intros H.
  repeat match goal with
         | |- context [Z.ltb ?a ?b] => destruct (Z.ltb_spec a b)
         end; lia.
Qed.

(** ** File-name encodings *)

Lemma ReplaceAll_map s old new :
  strings.ReplaceAll s old new
  = mapString (fun c => if Ascii.eqb c old then new else c) s.
Proof. induction s as [|c s IH]; simpl; [reflexivity | now rewrite IH]. Qed.

Lemma mapString_compose f g s :
  mapString g (mapString f s) = mapString (fun c => g (f c)) s.
Proof. induction s as [|c s IH]; simpl; [reflexivity | now rewrite IH]. Qed.

Lemma mapString_ext f g s :
  (forall c, f c = g c) -> mapString f s = mapString g s.
Proof.
  intros H. induction s as [|c s IH]; simpl; [reflexivity|].
  now rewrite H, IH.
Qed.

Lemma lockPath_map resource :
  lockPath resource = mapString lockFiller resource +:+ ".lock".
Proof.
  unfold lockPath. rewrite !ReplaceAll_map, !mapString_compose. f_equal.
  apply mapString_ext. intros c. unfold lockFiller.
  destruct (Ascii.eqb_spec c "/") as [->|]; [reflexivity|].
  destruct (Ascii.eqb_spec c "\") as [->|]; [reflexivity|].
  destruct (Ascii.eqb_spec c "*") as [->|]; [reflexivity|].
  destruct (Ascii.eqb_spec c "?") as [->|]; reflexivity.
Qed.

Lemma agentPath_map id :
  agent.agentPath id = mapString agentFiller id +:+ ".agent".
Proof.
  unfold agent.agentPath. rewrite !ReplaceAll_map, !mapString_compose.
  f_equal. apply mapString_ext. intros c. unfold agentFiller.
  destruct (Ascii.eqb_spec c "/") as [->|]; [reflexivity|].
  destruct (Ascii.eqb_spec c "\") as [->|]; reflexivity.
Qed.

(** C9, as the program has it.  The key of a lock replaces every [/] and
    [\] of the resource by [-] and every [*] and [?] by [_], and keeps
    every other byte; the key of an agent replaces only [/] and [\], by
    [-], so that [*] and [?] stay in an agent's file name. *)
Theorem key_encodings :
  (forall resource,
     lockPath resource = mapString lockFiller resource +:+ ".lock") /\
  (forall id, agent.agentPath id = mapString agentFiller id +:+ ".agent") /\
  (forall c,
     lockFiller c
     = if bool_decide (c = "/"%char \/ c = "\"%char) then "-"%char
       else if bool_decide (c = "*"%char \/ c = "?"%char) then "_"%char
       else c) /\
  (forall c,
     agentFiller c
     = if bool_decide (c = "/"%char \/ c = "\"%char) then "-"%char else c) /\
  agentFiller "*" = "*"%char /\ agentFiller "?" = "?"%char.
Proof.
  split; [exact lockPath_map|]. split; [exact agentPath_map|].
  split; [|split; [|split; reflexivity]].
  - intros c. unfold lockFiller.
    destruct (Ascii.eqb_spec c "/") as [->|]; [reflexivity|].
    destruct (Ascii.eqb_spec c "\") as [->|]; [reflexivity|].
    rewrite bool_decide_eq_false_2 by tauto. simpl.
    destruct (Ascii.eqb_spec c "*") as [->|]; [reflexivity|].
    destruct (Ascii.eqb_spec c "?") as [->|]; [reflexivity|].
    rewrite bool_decide_eq_false_2 by tauto. reflexivity.
  - intros c. unfold agentFiller.
    destruct (Ascii.eqb_spec c "/") as [->|]; [reflexivity|].
    destruct (Ascii.eqb_spec c "\") as [->|]; [reflexivity|].
    rewrite bool_decide_eq_false_2 by tauto. reflexivity.
Qed.

(** C9, as the claim has it, fails: the agent registry does not apply the
    rule of the lock store, it leaves [*] and [?] in place. *)
Lemma key_encodings_counterexample :
  ~ (forall id,
       agent.agentPath id = mapString lockFiller id +:+ ".agent").
Proof. intros H. specialize (H "a*b?"). vm_compute in H. discriminate H. Qed.

(** ** The [locks] directory *)

Lemma lookupFile_createFile_eq name f d :
  lookupFile name d = None -> lookupFile name (createFile name f d) = Some f.
Proof.
  induction d as [|[n g] d IH]; simpl; intros H.
  - now rewrite String.eqb_refl.
  - destruct (String.eqb_spec n name) as [->|Hn]; [discriminate|].
    destruct (String.ltb name n); simpl.
    + now rewrite String.eqb_refl.
    + destruct (String.eqb_spec n name); [contradiction | auto].
Qed.


Lemma lookupFile_removeFile_eq name d :
  lookupFile name (removeFile name d) = None.
Proof.
  induction d as [|[n g] d IH]; simpl; [reflexivity|].
  destruct (String.eqb_spec n name) as [->|Hn]; simpl; [assumption|].
  destruct (String.eqb_spec n name); [contradiction | assumption].
Qed.

Lemma lookupFile_removeFile_ne name name' d :
  name <> name' ->
  lookupFile name' (removeFile name d) = lookupFile name' d.
Proof.
  intros Hne. induction d as [|[n g] d IH]; simpl; [reflexivity|].
  destruct (String.eqb_spec n name) as [->|Hn]; simpl.
  - destruct (String.eqb_spec name name'); [contradiction | assumption].
  - now rewrite IH.
Qed.

Lemma removeFile_absent name d :
  lookupFile name d = None -> removeFile name d = d.
Proof.
  induction d as [|[n g] d IH]; simpl; [reflexivity|].
  destruct (String.eqb_spec n name); [discriminate|].
  intros H. now rewrite IH.
Qed.

Lemma writeIno_absent name ino data d :
  lookupFile name d = None -> writeIno name ino data d = d.
Proof.
  induction d as [|[n g] d IH]; simpl; [reflexivity|].
  destruct (String.eqb_spec n name); [discriminate|].
  intros H. simpl. now rewrite IH.
Qed.

Lemma writeIno_createFile name ino data d :
  lookupFile name d = None ->
  writeIno name ino data (createFile name {| Ino := ino; Data := None |} d)
  = createFile name {| Ino := ino; Data := data |} d.
Proof.
  induction d as [|[n g] d IH]; simpl; intros H.
  - now rewrite String.eqb_refl, Nat.eqb_refl.
  - destruct (String.eqb_spec n name) as [->|Hn]; [discriminate|].
    destruct (String.ltb name n); simpl.
    + rewrite String.eqb_refl, Nat.eqb_refl. simpl.
      destruct (String.eqb_spec n name); [contradiction|]. simpl.
      now rewrite writeIno_absent.
    + destruct (String.eqb_spec n name); [contradiction|]. simpl.
      now rewrite IH.
Qed.

(** ** [Acquire] without interference *)

Lemma resolveTTL_idem m ttl : resolveTTL m (resolveTTL m ttl) = resolveTTL m ttl.
Proof.
  unfold resolveTTL. destruct (Z.eqb_spec ttl 0) as [->|Hne].
  - now destruct (_ =? 0).
  - destruct (Z.eqb_spec ttl 0); [contradiction | reflexivity].
Qed.

Lemma Acquire_free fuel m pid w resource agentID agentName operation ttl :
  lookupFile (lockPath resource) (locks w) = None ->
  Acquire (S fuel) m pid w resource agentID agentName operation ttl
  = Some (withLock (lockPath resource)
            (newLock w pid resource agentID agentName operation
               (resolveTTL m ttl)) w, None).
Proof.
  intros H. simpl. unfold openExcl. rewrite H. unfold fdWrite, setLocks.
  simpl. rewrite writeIno_createFile by assumption. reflexivity.
Qed.

Lemma Acquire_held fuel m pid w resource agentID agentName operation ttl l :
  Read w resource = inl l ->
  IsStale m w l = false ->
  Acquire (S fuel) m pid w resource agentID agentName operation ttl
  = Some (w, Some (lockedError resource l)).
Proof.
  intros Hr Hs. simpl. unfold openExcl. pose proof Hr as Hr'.
  unfold Read in Hr'.
  destruct (lookupFile (lockPath resource) (locks w)); [|discriminate].
  rewrite Hr, Hs. reflexivity.
Qed.

Lemma Acquire_unreadable fuel m pid w resource agentID agentName operation
    ttl f :
  lookupFile (lockPath resource) (locks w) = Some f ->
  Data f = None ->
  Acquire (S fuel) m pid w resource agentID agentName operation ttl
  = Some (w, Some ErrAcquire).
Proof.
  intros Hl Hd. simpl. unfold openExcl, Read. rewrite Hl, Hd. reflexivity.
Qed.

Lemma Acquire_stale fuel m pid w resource agentID agentName operation ttl l :
  Read w resource = inl l ->
  IsStale m w l = true ->
  Acquire (S (S fuel)) m pid w resource agentID agentName operation ttl
  = Some (withLock (lockPath resource)
            (newLock w pid resource agentID agentName operation
               (resolveTTL m ttl))
            (without (lockPath resource) w), None).
Proof.
  intros Hr Hs. pose proof Hr as Hr'. unfold Read in Hr'.
  destruct (lookupFile (lockPath resource) (locks w)) as [f|] eqn:Hl;
    [|discriminate].
  change (Acquire (S (S fuel)) m pid w resource agentID agentName operation
            ttl)
    with (match openExcl (lockPath resource) w with
          | (_, inr _) =>
              match Read w resource with
              | inl existing =>
                  if IsStale m w existing then
                    match osRemove (lockPath resource) w with
                    | (w', None) =>
                        Acquire (S fuel) m pid w' resource agentID agentName
                          operation (resolveTTL m ttl)
                    | (_, Some _) =>
                        Some (w, Some (lockedError resource existing))
                    end
                  else Some (w, Some (lockedError resource existing))
              | inr _ => Some (w, Some ErrAcquire)
              end
          | (w', inl fd) =>
              Some (fdWrite (lockPath resource) fd
                      (newLock w pid resource agentID agentName operation
                         (resolveTTL m ttl)) w', None)
          end).
  unfold openExcl, osRemove. rewrite Hl, Hr, Hs.
  rewrite Acquire_free by (simpl; apply lookupFile_removeFile_eq).
  rewrite resolveTTL_idem. reflexivity.
Qed.

Lemma Acquire_stale_fuel m pid w resource agentID agentName operation ttl l :
  Read w resource = inl l ->
  IsStale m w l = true ->
  Acquire 1 m pid w resource agentID agentName operation ttl = None.
Proof.
  intros Hr Hs. simpl. unfold openExcl, osRemove. pose proof Hr as Hr'.
  unfold Read in Hr'.
  destruct (lookupFile (lockPath resource) (locks w)); [|discriminate].
  rewrite Hr, Hs. reflexivity.
Qed.

(** ** The agent registry stamps its files *)

Lemma save_savedByRegistry t d a :
  agent.LastHeartbeat a = t ->
  savedByRegistry d -> savedByRegistry (agent.save t d a).
Proof.
  intros Ha Hd path f. unfold agent.save.
  destruct (decide (agent.agentPath (agent.ID a) = path)) as [<-|Hne].
  - rewrite lookup_insert_eq. intros [= <-]. simpl. now rewrite Ha.
  - rewrite lookup_insert_ne by assumption. apply Hd.
Qed.

Lemma Register_savedByRegistry t pid d id name :
  savedByRegistry d -> savedByRegistry (agent.Register t pid d id name).
Proof. intros Hd. unfold agent.Register. now apply save_savedByRegistry. Qed.

Lemma Heartbeat_savedByRegistry t pid d id :
  savedByRegistry d -> savedByRegistry (agent.Heartbeat t pid d id).
Proof.
  intros Hd. unfold agent.Heartbeat. destruct (agent.Read d id).
  - now apply save_savedByRegistry.
  - now apply Register_savedByRegistry.
Qed.

Lemma UpdateTask_savedByRegistry t d id task :
  savedByRegistry d -> savedByRegistry (agent.UpdateTask t d id task).1.
Proof.
  intros Hd. unfold agent.UpdateTask. destruct (agent.Read d id); simpl.
  - now apply save_savedByRegistry.
  - assumption.
Qed.

Lemma UpdateLocks_savedByRegistry t d id ls :
  savedByRegistry d -> savedByRegistry (agent.UpdateLocks t d id ls).1.
Proof.
  intros Hd. unfold agent.UpdateLocks. destruct (agent.Read d id); simpl.
  - now apply save_savedByRegistry.
  - assumption.
Qed.

Lemma Register_stamps t pid d id name :
  exists f,
    agent.Register t pid d id name !! agent.agentPath id = Some f /\
    agent.ModTime f = t /\ agent.LastHeartbeat (agent.Data f) = t.
Proof.
  unfold agent.Register, agent.save. simpl. rewrite lookup_insert_eq.
  eexists. repeat split.
Qed.

(** ** The staleness policy *)

Lemma IsStale_fit m w l :
  secondsFit (TTLSeconds l) -> secondsFit (staleThreshold m) ->
  IsStale m w l
  = (now w - AcquiredAt l >? TTLSeconds l * time.Second)
    || match agents w !! heartbeatPath l with
       | None => now w - AcquiredAt l >? staleThreshold m * time.Second
       | Some info =>
           now w - agent.ModTime info >? staleThreshold m * time.Second
       end.
Proof.
  intros Ht Hs. unfold IsStale. fold (staleThreshold m).
  rewrite !Since_gt_Seconds by assumption.
  destruct (now w - AcquiredAt l >? TTLSeconds l * time.Second);
    [reflexivity|]. simpl.
  destruct (agents w !! heartbeatPath l) as [info|].
  - rewrite Since_gt_Seconds by assumption.
    now destruct (_ >? _).
  - now destruct (_ >? _).
Qed.






(** ** Pattern resolution *)

Section Resolution.

Variable Match : string -> string -> option bool.

Lemma matchedPattern_Some filePath protected p :
  matchedPattern Match filePath protected = Some p <->
  exists before q after,
    protected = before ++ q :: after /\
    config.Pattern q = p /\
    Match p filePath = Some true /\
    Forall (misses Match filePath) before.
Proof.
  induction protected as [|r rest IH]; simpl.
  - split; [discriminate|]. intros (before & q & after & H & _).
    destruct before; discriminate H.
  - split.
    + destruct (Match (config.Pattern r) filePath) as [[|]|] eqn:Hr.
      * intros [= <-]. exists [], r, rest. repeat split; auto.
      * intros (before & q & after & -> & Hq & Hm & Hb)%IH.
        exists (r :: before), q, after. repeat split; auto.
        constructor; [|assumption]. unfold misses. rewrite Hr. discriminate.
      * intros (before & q & after & -> & Hq & Hm & Hb)%IH.
        exists (r :: before), q, after. repeat split; auto.
        constructor; [|assumption]. unfold misses. rewrite Hr. discriminate.
    + intros (before & q & after & Heq & Hq & Hm & Hb).
      destruct before as [|b before]; simpl in Heq.
      * injection Heq as -> ->. rewrite Hq, Hm. now rewrite <- Hq.
      * injection Heq as -> ->. inversion Hb as [|? ? Hb1 Hb2]; subst.
        unfold misses in Hb1.
        assert (Hrec : matchedPattern Match filePath (before ++ q :: after)
                       = Some (config.Pattern q)).
        { apply IH. exists before, q, after. repeat split; auto. }
        destruct (Match (config.Pattern b) filePath) as [[|]|];
          [contradiction | exact Hrec | exact Hrec].
Qed.

Lemma matchedPattern_None filePath protected :
  matchedPattern Match filePath protected = None <->
  Forall (misses Match filePath) protected.
Proof.
  induction protected as [|r rest IH]; simpl.
  - split; auto.
  - unfold misses at 1.
    destruct (Match (config.Pattern r) filePath) as [[|]|] eqn:Hr.
    + split; [discriminate|]. intros H. inversion H as [|? ? H1 H2]; subst.
      unfold misses in H1. contradiction.
    + rewrite IH. split.
      * intros H. constructor; [unfold misses; rewrite Hr; discriminate|auto].
      * intros H. now inversion H.
    + rewrite IH. split.
      * intros H. constructor; [unfold misses; rewrite Hr; discriminate|auto].
      * intros H. now inversion H.
Qed.


Lemma Check_protected m w filePath :
  (Check Match m w filePath).2
  = bool_decide (is_Some (matchedPattern Match filePath
                            (config.Protected (cfg m)))).
Proof.
  unfold Check.
  now destruct (matchedPattern Match filePath (config.Protected (cfg m))).
Qed.

End Resolution.

(** C6.  Pattern resolution is first-match-wins, for every matcher, every
    path and every ordered list of patterns: the resolved pattern is [p]
    exactly when [p] matches the path and no pattern before it in the
    configured order does; there is none exactly when no pattern matches;
    [Check] reports the file protected exactly when a pattern is resolved.
    With the patterns [db/**/*] and [db/schema/*] in that order, the file
    [db/schema/users.sql] resolves to [db/**/*]. *)
Theorem first_match_wins :
  (forall (Match : string -> string -> option bool) m w filePath,
     let protected := config.Protected (cfg m) in
     (forall p,
        matchedPattern Match filePath protected = Some p <->
        exists before q after,
          protected = before ++ q :: after /\
          config.Pattern q = p /\
          Match p filePath = Some true /\
          Forall (misses Match filePath) before) /\
     (matchedPattern Match filePath protected = None <->
      Forall (misses Match filePath) protected) /\
     (Check Match m w filePath).2
     = bool_decide (is_Some (matchedPattern Match filePath protected))) /\
  matchedPattern doublestar.Match "db/schema/users.sql"
    [config.pp "db/**/*" "" ""; config.pp "db/schema/*" "" ""]
  = Some "db/**/*".
Proof.
  split; [|reflexivity]. intros Match m w filePath protected.
  split; [|split].
  - intros p. apply matchedPattern_Some.
  - apply matchedPattern_None.
  - apply Check_protected.
Qed.

(** ** Release *)

Lemma osRemove_present path w f :
  lookupFile path (locks w) = Some f ->
  osRemove path w = (without path w, None).
Proof. intros H. unfold osRemove. now rewrite H. Qed.

(** C5.  [Release] in each state of the resource's record: with no record
    it succeeds and changes nothing; with a record of another owner it
    fails with the ownership error and changes nothing; with a record of
    the caller it removes that record and no other. *)
Theorem Release_cases w resource agentID :
  (lookupFile (lockPath resource) (locks w) = None ->
   Release w resource agentID = (w, None)) /\
  (forall l,
     Read w resource = inl l ->
     AgentID l <> agentID ->
     Release w resource agentID = (w, Some (ErrOwner (AgentID l)))) /\
  (forall l,
     Read w resource = inl l ->
     AgentID l = agentID ->
     exists w',
       Release w resource agentID = (w', None) /\
       lookupFile (lockPath resource) (locks w') = None /\
       (forall name,
          name <> lockPath resource ->
          lookupFile name (locks w') = lookupFile name (locks w)) /\
       agents w' = agents w /\ now w' = now w).
Proof.
  repeat split.
  - intros H. unfold Release, Read. now rewrite H.
  - intros l Hr Hne. unfold Release. rewrite Hr.
    destruct (String.eqb_spec (AgentID l) agentID); [contradiction|].
    reflexivity.
  - intros l Hr He. unfold Release. rewrite Hr.
    destruct (String.eqb_spec (AgentID l) agentID); [|contradiction]. simpl.
    unfold Read in Hr.
    destruct (lookupFile (lockPath resource) (locks w)) as [f|] eqn:Hl;
      [|discriminate].
    exists (without (lockPath resource) w).
    split; [now apply (osRemove_present _ _ f)|]. simpl.
    split; [apply lookupFile_removeFile_eq|].
    split; [|split; reflexivity].
    intros name Hn. now apply lookupFile_removeFile_ne.
Qed.

Lemma Release_cases_witness :
  let w := shortLockWorld 0 0 in
  (lookupFile (lockPath "go.mod") (locks w) = None /\
   Release w "go.mod" "agent-2" = (w, None)) /\
  (Read w "db/**/*" = inl shortLock /\
   AgentID shortLock <> "agent-2" /\
   Release w "db/**/*" "agent-2" = (w, Some (ErrOwner "agent-1"))) /\
  (Read w "db/**/*" = inl shortLock /\
   AgentID shortLock = "agent-1" /\
   exists w',
     Release w "db/**/*" "agent-1" = (w', None) /\
     lookupFile (lockPath "db/**/*") (locks w') = None).
Proof.
  intros w.
  destruct (Release_cases w "go.mod" "agent-2") as (H1 & _ & _).
  destruct (Release_cases w "db/**/*" "agent-2") as (_ & H2 & _).
  destruct (Release_cases w "db/**/*" "agent-1") as (_ & _ & H3).
  assert (Hr : Read w "db/**/*" = inl shortLock) by reflexivity.
  split; [|split].
  - split; [reflexivity|]. apply H1. reflexivity.
  - split; [exact Hr|]. split; [discriminate|].
    apply (H2 shortLock Hr). discriminate.
  - split; [exact Hr|]. split; [reflexivity|].
    destruct (H3 shortLock Hr eq_refl) as (w' & Hw & Hl & _).
    exists w'. split; assumption.
Defined.

(** ** CheckOrAcquire on a file that is locked *)

Section Covered.

Variable Match : string -> string -> option bool.


Lemma CheckOrAcquire_other fuel m pid w filePath agentID agentName operation l :
  Check Match m w filePath = (Some l, true) ->
  AgentID l <> agentID ->
  CheckOrAcquire Match fuel m pid w filePath agentID agentName operation
  = Some (w, (Some l, Some (ErrLockedBy (AgentID l) (Operation l)))).
Proof.
  intros Hc Hne. unfold CheckOrAcquire. rewrite Hc.
  destruct (String.eqb_spec (AgentID l) agentID); [contradiction|].
  reflexivity.
Qed.


Lemma CheckOrAcquire_changes fuel m pid w filePath agentID agentName operation
    w' r :
  CheckOrAcquire Match fuel m pid w filePath agentID agentName operation
  = Some (w', r) ->
  w' <> w ->
  Check Match m w filePath = (None, true).
Proof.
  unfold CheckOrAcquire.
  destruct (Check Match m w filePath) as [[l|] [|]]; try reflexivity.
  - destruct (String.eqb (AgentID l) agentID); intros [= <- <-]; contradiction.
  - intros [= <- <-]; contradiction.
  - intros [= <- <-]; contradiction.
Qed.

End Covered.

(** C10.  [CheckOrAcquire] never reclaims: when [Check] finds a lock of
    another agent the call fails with the conflict error naming that
    agent and leaves the directory as it is, whether or not the lock is
    stale; and a call that changes the directory is one for which [Check]
    found the file protected and no lock at all. *)
Theorem CheckOrAcquire_never_reclaims
    (Match : string -> string -> option bool) fuel m pid w filePath agentID
    agentName operation :
  (forall l,
     Check Match m w filePath = (Some l, true) ->
     AgentID l <> agentID ->
     CheckOrAcquire Match fuel m pid w filePath agentID agentName operation
     = Some (w, (Some l, Some (ErrLockedBy (AgentID l) (Operation l))))) /\
  (forall w' r,
     CheckOrAcquire Match fuel m pid w filePath agentID agentName operation
     = Some (w', r) ->
     w' <> w ->
     Check Match m w filePath = (None, true)).
Proof.
  split.
  - intros l. apply CheckOrAcquire_other.
  - intros w' r. apply CheckOrAcquire_changes.
Qed.

(** Two seconds after the lock of one second was taken it is stale, and
    [Acquire] would reclaim it; [CheckOrAcquire] reports the conflict. *)
Lemma CheckOrAcquire_never_reclaims_witness :
  let w := shortLockWorld 2000000000 0 in
  IsStale defaultManager w shortLock = true /\
  Check doublestar.Match defaultManager w "db/schema/users.sql"
  = (Some shortLock, true) /\
  AgentID shortLock <> "agent-2" /\
  CheckOrAcquire doublestar.Match 2 defaultManager 2 w "db/schema/users.sql"
    "agent-2" "" "seed"
  = Some (w, (Some shortLock, Some (ErrLockedBy "agent-1" "migrate"))).
Proof.
  intros w.
  assert (Hc : Check doublestar.Match defaultManager w "db/schema/users.sql"
               = (Some shortLock, true)) by reflexivity.
  assert (Hn : AgentID shortLock <> "agent-2") by discriminate.
  split; [reflexivity|]. split; [exact Hc|]. split; [exact Hn|].
  exact (proj1 (CheckOrAcquire_never_reclaims doublestar.Match 2
                  defaultManager 2 w "db/schema/users.sql" "agent-2" ""
                  "seed") shortLock Hc Hn).
Defined.

(** ** ReleaseAll *)

Lemma HasSuffix_app s suffix :
  strings.HasSuffix (s +:+ suffix) suffix = true.
Proof.
  unfold strings.HasSuffix. induction s as [|c s IH]; simpl.
  - rewrite Nat.leb_refl, Nat.sub_diag. simpl.
    assert (H : forall t, String.substring 0 (String.length t) t = t).
    { induction t as [|a t IHt]; simpl; [reflexivity | now rewrite IHt]. }
    rewrite H. apply String.eqb_refl.
  - apply andb_true_iff in IH as [Hle Hsub]. apply Nat.leb_le in Hle.
    apply andb_true_iff. split; [apply Nat.leb_le; lia|].
    replace (S (String.length (s +:+ suffix)) - String.length suffix)%nat
      with (S (String.length (s +:+ suffix) - String.length suffix))
      by lia.
    simpl. exact Hsub.
Qed.

Lemma lockPath_suffix resource :
  strings.HasSuffix (lockPath resource) ".lock" = true.
Proof. unfold lockPath. apply HasSuffix_app. Qed.

Lemma lookupFile_app name a b :
  lookupFile name (a ++ b)
  = match lookupFile name a with
    | Some f => Some f
    | None => lookupFile name b
    end.
Proof.
  induction a as [|[n f] a IH]; simpl; [reflexivity|].
  now destruct (String.eqb n name).
Qed.

Lemma removeFile_app name a b :
  removeFile name (a ++ b) = removeFile name a ++ removeFile name b.
Proof.
  induction a as [|[n f] a IH]; simpl; [reflexivity|].
  destruct (String.eqb n name); simpl; now rewrite IH.
Qed.

Lemma dropOwned_app agentID a b :
  dropOwned agentID (a ++ b) = dropOwned agentID a ++ dropOwned agentID b.
Proof.
  induction a as [|[n f] a IH]; simpl; [reflexivity|].
  destruct (Data f) as [l|]; [destruct (String.eqb (AgentID l) agentID)|];
    simpl; now rewrite IH.
Qed.

Lemma lookupFile_dropOwned_None agentID name d :
  lookupFile name d = None -> lookupFile name (dropOwned agentID d) = None.
Proof.
  induction d as [|[n f] d IH]; simpl; [reflexivity|].
  destruct (String.eqb_spec n name) as [->|Hn]; [discriminate|]. intros H.
  destruct (Data f) as [l|]; [destruct (String.eqb (AgentID l) agentID)|];
    simpl; auto.
  - destruct (String.eqb_spec n name); [contradiction | auto].
  - destruct (String.eqb_spec n name); [contradiction | auto].
Qed.

Lemma uniqueNames_middle a n f b :
  uniqueNames (a ++ (n, f) :: b) ->
  lookupFile n a = None /\ lookupFile n b = None.
Proof.
  induction a as [|[n0 f0] a IH]; simpl.
  - intros [H _]. split; [reflexivity | exact H].
  - intros [H0 Hu]. destruct (IH Hu) as [Ha Hb]. split; [|exact Hb].
    rewrite lookupFile_app in H0.
    destruct (lookupFile n0 a); [discriminate|]. simpl in H0.
    destruct (String.eqb_spec n n0) as [->|Hne]; [discriminate|].
    destruct (String.eqb_spec n0 n) as [->|]; [contradiction | exact Ha].
Qed.

Lemma setLocks_setLocks d d' w : setLocks d (setLocks d' w) = setLocks d w.
Proof. reflexivity. Qed.

Lemma setLocks_locks w : setLocks (locks w) w = w.
Proof. now destruct w. Qed.

Lemma releaseEach_wf agentID w suf :
  forall pre errs,
    uniqueNames (pre ++ suf) ->
    keyedByResource (pre ++ suf) ->
    releaseEach (setLocks (dropOwned agentID pre ++ suf) w) agentID
      (listDir suf) errs
    = (setLocks (dropOwned agentID (pre ++ suf)) w, errs).
Proof.
  induction suf as [|[n f] suf IH]; intros pre errs Hu Hk.
  - simpl. now rewrite !app_nil_r.
  - assert (Hstep : forall errs',
              releaseEach
                (setLocks (dropOwned agentID (pre ++ [(n, f)]) ++ suf) w)
                agentID (listDir suf) errs'
              = (setLocks (dropOwned agentID (pre ++ (n, f) :: suf)) w,
                 errs')).
    { intros errs'. rewrite IH.
      - now rewrite <- app_assoc.
      - now rewrite <- app_assoc.
      - now rewrite <- app_assoc. }
    rewrite dropOwned_app in Hstep. simpl in Hstep.
    pose proof (uniqueNames_middle _ _ _ _ Hu) as [Hpre Hsuf].
    assert (Hkey : forall l, Data f = Some l -> n = lockPath (Resource l)).
    { unfold keyedByResource in Hk. rewrite Forall_app in Hk.
      destruct Hk as [_ Hk]. inversion Hk as [|? ? Hk1 _]; subst.
      exact Hk1. }
    simpl. destruct (Data f) as [l|] eqn:Hd.
    + pose proof (Hkey l eq_refl) as Hn.
      assert (Hsfx : strings.HasSuffix n ".lock" = true)
        by (rewrite Hn; apply lockPath_suffix).
      rewrite Hsfx. simpl.
      destruct (String.eqb (AgentID l) agentID) eqn:Ho.
      * unfold Release, Read. simpl. rewrite <- Hn.
        rewrite lookupFile_app, lookupFile_dropOwned_None by assumption.
        simpl. rewrite String.eqb_refl, Hd, Ho. simpl.
        unfold osRemove. simpl.
        rewrite lookupFile_app, lookupFile_dropOwned_None by assumption.
        simpl. rewrite String.eqb_refl. simpl.
        rewrite removeFile_app. simpl. rewrite String.eqb_refl.
        rewrite (removeFile_absent n suf) by assumption.
        rewrite (removeFile_absent n (dropOwned agentID pre))
          by now apply lookupFile_dropOwned_None.
        rewrite app_nil_r in Hstep. apply Hstep.
      * rewrite <- app_assoc in Hstep. apply Hstep.
    + rewrite <- app_assoc in Hstep.
      destruct (strings.HasSuffix n ".lock"); simpl; apply Hstep.
Qed.

Lemma ReleaseAll_wf w agentID :
  wfDir (locks w) ->
  ReleaseAll w agentID = (setLocks (dropOwned agentID (locks w)) w, None).
Proof.
  intros [Hu Hk]. unfold ReleaseAll, List.
  pose proof (releaseEach_wf agentID w (locks w) [] [] Hu Hk) as H.
  simpl in H. rewrite setLocks_locks in H. now rewrite H.
Qed.

Lemma shrinks_refl w : shrinks w w.
Proof. repeat split. intros name. now left. Qed.

Lemma shrinks_trans w1 w2 w3 : shrinks w1 w2 -> shrinks w2 w3 -> shrinks w1 w3.
Proof.
  intros (H12 & Ha & Hn) (H23 & Ha' & Hn'). repeat split; try congruence.
  intros name. destruct (H23 name) as [H|H]; [|now right].
  rewrite H. apply H12.
Qed.

Lemma shrinks_without path w : shrinks w (without path w).
Proof.
  repeat split. intros name. simpl.
  destruct (String.eqb_spec path name) as [->|Hne].
  - right. apply lookupFile_removeFile_eq.
  - left. now apply lookupFile_removeFile_ne.
Qed.

Lemma shrinks_None w w' name :
  shrinks w w' ->
  lookupFile name (locks w) = None -> lookupFile name (locks w') = None.
Proof. intros (H & _) Hn. destruct (H name) as [Hs|Hs]; congruence. Qed.

Lemma releasable_shrinks agentID w w' l :
  shrinks w w' -> releasable agentID w l -> releasable agentID w' l.
Proof.
  intros (H & _). unfold releasable, Read.
  destruct (H (lockPath (Resource l))) as [-> | ->]; auto.
Qed.

Lemma Release_result w resource agentID :
  match Read w resource with
  | inl l =>
      if String.eqb (AgentID l) agentID
      then Release w resource agentID = (without (lockPath resource) w, None)
      else Release w resource agentID = (w, Some (ErrOwner (AgentID l)))
  | inr ErrNotExist => Release w resource agentID = (w, None)
  | inr err => Release w resource agentID = (w, Some err)
  end.
Proof.
  unfold Release. destruct (Read w resource) as [l|err] eqn:Hr.
  - destruct (String.eqb (AgentID l) agentID); simpl; [|reflexivity].
    unfold Read in Hr.
    destruct (lookupFile (lockPath resource) (locks w)) as [f|] eqn:Hl;
      [|discriminate].
    now apply (osRemove_present _ _ f).
  - now destruct err.
Qed.

Lemma Release_shrinks w resource agentID w' err :
  Release w resource agentID = (w', err) -> shrinks w w'.
Proof.
  pose proof (Release_result w resource agentID) as H.
  destruct (Read w resource) as [l|e].
  - destruct (String.eqb (AgentID l) agentID); rewrite H; intros [= <- <-].
    + apply shrinks_without.
    + apply shrinks_refl.
  - destruct e; rewrite H; intros [= <- <-]; apply shrinks_refl.
Qed.

Lemma Release_releasable w agentID l w' err :
  releasable agentID w l ->
  Release w (Resource l) agentID = (w', err) ->
  err = None /\ lookupFile (lockPath (Resource l)) (locks w') = None.
Proof.
  unfold releasable.
  pose proof (Release_result w (Resource l) agentID) as H.
  destruct (Read w (Resource l)) as [l'|e] eqn:Hr.
  - intros <-. rewrite String.eqb_refl in H. rewrite H. intros [= <- <-].
    split; [reflexivity|]. simpl. apply lookupFile_removeFile_eq.
  - destruct e; try contradiction. intros _. rewrite H. intros [= <- <-].
    split; [reflexivity|]. unfold Read in Hr.
    destruct (lookupFile (lockPath (Resource l)) (locks w)) as [f|];
      [|reflexivity].
    destruct (Data f); discriminate.
Qed.

Lemma releaseEach_general agentID ls :
  forall w errs w' errs',
    releaseEach w agentID ls errs = (w', errs') ->
    shrinks w w' /\
    (forall l,
       In l ls -> AgentID l = agentID -> releasable agentID w l ->
       lookupFile (lockPath (Resource l)) (locks w') = None) /\
    (exists more,
       errs' = errs ++ more /\
       ((forall l, In l ls -> AgentID l = agentID -> releasable agentID w l)
        -> more = [])).
Proof.
  induction ls as [|l0 ls IH]; intros w errs w' errs'; simpl.
  - intros [= <- <-]. split; [apply shrinks_refl|]. split; [tauto|].
    exists []. now rewrite app_nil_r.
  - destruct (String.eqb_spec (AgentID l0) agentID) as [Ho|Ho].
    + destruct (Release w (Resource l0) agentID) as [w1 e1] eqn:Hrel.
      pose proof (Release_shrinks _ _ _ _ _ Hrel) as Hs1.
      assert (Hhead : releasable agentID w l0 ->
                      e1 = None /\
                      lookupFile (lockPath (Resource l0)) (locks w1) = None).
      { intros Hr. exact (Release_releasable _ _ _ _ _ Hr Hrel). }
      clear Hrel.
      destruct e1 as [e|]; intros Hrun;
        destruct (IH _ _ _ _ Hrun) as (Hs & Hgone & more & -> & Hmore);
        (split; [now apply (shrinks_trans _ w1)|]); split.
      * intros l [<-|Hin] Hl Hr.
        -- apply (shrinks_None w1); [assumption|]. now apply Hhead.
        -- apply Hgone; auto. now apply (releasable_shrinks _ w).
      * exists ([e] ++ more). split; [now rewrite app_assoc|].
        intros Hall. destruct (Hhead (Hall l0 (or_introl eq_refl) Ho)).
        discriminate.
      * intros l [<-|Hin] Hl Hr.
        -- apply (shrinks_None w1); [assumption|]. now apply Hhead.
        -- apply Hgone; auto. now apply (releasable_shrinks _ w).
      * exists more. split; [reflexivity|]. intros Hall. apply Hmore.
        intros l Hin Hl. apply (releasable_shrinks _ w); auto.
    + intros Hrun.
      destruct (IH _ _ _ _ Hrun) as (Hs & Hgone & more & -> & Hmore).
      split; [assumption|]. split.
      * intros l [<-|Hin] Hl Hr; [contradiction | auto].
      * exists more. split; [reflexivity|]. intros Hall. apply Hmore.
        intros l Hin. apply Hall. now right.
Qed.




Lemma testWorld_wf : wfDir (locks testWorld).
Proof.
  split.
  - simpl. repeat split.
  - repeat constructor; simpl; intros l [= <-]; reflexivity.
Qed.


(** The directory of the test is the one three calls of [Acquire] build. *)
Example testWorld_acquired :
  let m := defaultManager in
  exists w1 w2,
    Acquire 1 m 1 (emptyWorld 0) "resource-1" "agent-1" "" "task 1" 300
    = Some (w1, None) /\
    Acquire 1 m 1 w1 "resource-2" "agent-1" "" "task 2" 300
    = Some (w2, None) /\
    Acquire 1 m 1 w2 "resource-3" "agent-2" "" "task 3" 300
    = Some (testWorld, None).
Proof. simpl. eexists. eexists. repeat split. Qed.

(** ** CheckOrAcquire by the owner *)

Section Idempotence.

Variable Match : string -> string -> option bool.








End Idempotence.



(** The directory of the counterexample is the one the two calls build. *)
Example overlapWorld_acquired :
  exists w1 l1 l2,
    CheckOrAcquire doublestar.Match 1 overlapManager 1 (emptyWorld 0)
      "pkg/b_test.go" "agent-2" "" "edit"
    = Some (w1, (Some l1, None)) /\
    CheckOrAcquire doublestar.Match 1 overlapManager 1 w1 "src/main.go"
      "agent-1" "" "edit"
    = Some (overlapWorld, (Some l2, None)).
Proof. do 3 eexists. split; reflexivity. Qed.


(** ** Acquire under interleaving: the race for a free key *)

Lemma gtb_mono a a' b : a <= a' -> (a >? b) = true -> (a' >? b) = true.
Proof. rewrite !Z.gtb_ltb, !Z.ltb_lt. lia. Qed.

(** A lock that is stale stays stale when the clock advances, and a lock
    of the same owner and TTL that is at least as old is stale as well. *)
Lemma IsStale_later m w w' l l' :
  agents w' = agents w ->
  AgentID l' = AgentID l ->
  TTLSeconds l' = TTLSeconds l ->
  now w <= now w' ->
  now w - AcquiredAt l <= now w' - AcquiredAt l' ->
  IsStale m w l = true -> IsStale m w' l' = true.
Proof.
  intros Ha Hid Httl Hnow Hage. unfold IsStale, heartbeatPath. cbv zeta.
  rewrite Ha, Hid, Httl.
  pose proof (Since_mono _ _ _ _ Hage) as Hs.
  destruct (time.Since (now w) (AcquiredAt l) >? time.Seconds (TTLSeconds l))
    eqn:H1.
  - intros _. now rewrite (gtb_mono _ _ _ Hs H1).
  - destruct (time.Since (now w') (AcquiredAt l')
              >? time.Seconds (TTLSeconds l)); [reflexivity|].
    destruct (agents w !! (AgentID l +:+ ".agent")) as [info|].
    + destruct (time.Since (now w) (agent.ModTime info) >? _) eqn:H2;
        [|discriminate].
      intros _.
      assert (Hm : time.Since (now w) (agent.ModTime info)
                   <= time.Since (now w') (agent.ModTime info))
        by (apply Since_mono; lia).
      now rewrite (gtb_mono _ _ _ Hm H2).
    + match goal with
      | |- context [time.Since (now w) (AcquiredAt l) >? ?x] =>
          destruct (time.Since (now w) (AcquiredAt l) >? x) eqn:H2;
            [|discriminate]
      end.
      intros _. now rewrite (gtb_mono _ _ _ Hs H2).
Qed.






Lemma callLock_now m w w' c : now w' = now w -> callLock m w' c = callLock m w c.
Proof. intros H. unfold callLock, newLock. now rewrite H. Qed.


Section Race.

Variables (m : Manager) (w0 : World) (calls : list Call).
Variables (resource : string) (T : Z).

Hypothesis same_resource : Forall (fun c => callResource c = resource) calls.

Hypothesis never_stale :
  Forall (fun c => IsStale m (setNow T w0) (callLock m w0 c) = false) calls.





End Race.





Section RaceOutcome.

Variables (m : Manager) (w0 : World) (calls : list Call).
Variables (resource : string) (T : Z).

Hypothesis same_resource : Forall (fun c => callResource c = resource) calls.

Hypothesis never_stale :
  Forall (fun c => IsStale m (setNow T w0) (callLock m w0 c) = false) calls.





End RaceOutcome.




(** The same race, call by call. *)
Example race_with_stale_winner :
  let s :=
    exec defaultManager
      [Run 0; Run 0; Run 1; Run 1; Run 1; Run 1; Run 1; Run 1]
      (boot (lateWorld 0) [raceCall 1 "agent-1"; raceCall 2 "agent-2"]) in
  pc <$> procs s = [Returned None; Returned None] /\
  reclaims <$> procs s = [0%nat; 1%nat] /\
  (exists l, Read (world s) "db/schema/*" = inl l /\ AgentID l = "agent-2").
Proof. vm_compute. repeat split. eexists. split; reflexivity. Qed.

(** ** Acquire under interleaving: reclaim after reclaim *)

Lemma IsStale_frame m w w' l :
  agents w' = agents w -> now w' = now w -> IsStale m w' l = IsStale m w l.
Proof. intros Ha Hn. unfold IsStale. now rewrite Ha, Hn. Qed.

Lemma removeFile_createFile name f d :
  lookupFile name d = None -> removeFile name (createFile name f d) = d.
Proof.
  induction d as [|[n g] d IH]; simpl; intros H.
  - now rewrite String.eqb_refl.
  - destruct (String.eqb_spec n name) as [->|Hn]; [discriminate|].
    destruct (String.ltb name n); simpl.
    + rewrite String.eqb_refl.
      destruct (String.eqb_spec n name); [contradiction|].
      now rewrite removeFile_absent.
    + destruct (String.eqb_spec n name); [contradiction|]. now rewrite IH.
Qed.

Lemma insert_middle (a x y : Proc) l1 l2 :
  <[S (length l1) := y]> (a :: l1 ++ x :: l2) = a :: l1 ++ y :: l2.
Proof.
  simpl. f_equal.
  induction l1 as [|b l1 IH]; simpl; [reflexivity | now rewrite IH].
Qed.

Lemma fire_Run m s i p w' p' :
  procs s !! i = Some p ->
  step m (world s) p = (w', p') ->
  fire m s (Run i) = {| world := w'; procs := <[i := p']> (procs s) |}.
Proof. intros Hp Hs. unfold fire. now rewrite Hp, Hs. Qed.

Lemma exec_app m a b s : exec m (a ++ b) s = exec m b (exec m a s).
Proof. unfold exec. apply fold_left_app. Qed.

Lemma exec_cons m e sched s : exec m (e :: sched) s = exec m sched (fire m s e).
Proof. reflexivity. Qed.

(** One round: a call that takes the free lock while another call is
    about to retry, the lock being stale at once, makes that other call
    reclaim once more and come back to its exclusive create. *)
Lemma reclaim_round m w vc ic resource r before after :
  callResource vc = resource ->
  callResource ic = resource ->
  lookupFile (lockPath resource) (locks w) = None ->
  IsStale m w (callLock m w ic) = true ->
  exec m (stormRound (S (length before)))
    {| world := w;
       procs := {| call := vc; pc := AtOpen; reclaims := r |}
                :: before ++ start ic :: after |}
  = {| world := {| locks := locks w; agents := agents w; now := now w;
                   nextIno := S (nextIno w) |};
       procs := {| call := vc; pc := AtOpen; reclaims := S r |}
                :: before ++ {| call := ic; pc := Returned None;
                                reclaims := 0 |} :: after |}.
Proof.
  intros Hv Hi Hfree Hstale.
  set (path := lockPath resource) in *.
  set (l := callLock m w ic) in *.
  set (w2 := withLock path l w).
  assert (Hl2 : lookupFile path (locks w2)
                = Some {| Ino := nextIno w; Data := Some l |})
    by (unfold w2; simpl; now apply lookupFile_createFile_eq).
  unfold stormRound.
  (* the intruder creates the file *)
  rewrite exec_cons. erewrite fire_Run; cycle 1.
  { simpl. now apply list_lookup_middle. }
  { unfold step, start. simpl. rewrite Hi. unfold openExcl. fold path.
    rewrite Hfree. reflexivity. }
  simpl procs. rewrite insert_middle.
  (* and writes its lock *)
  rewrite exec_cons. erewrite fire_Run; cycle 1.
  { simpl. now apply list_lookup_middle. }
  { unfold step. simpl. rewrite Hi. fold path. unfold fdWrite, setLocks.
    simpl. rewrite writeIno_createFile by assumption. reflexivity. }
  simpl procs. rewrite insert_middle. fold l. fold (withLock path l w).
  fold w2.
  (* the victim collides, reads the lock, finds it stale and removes it *)
  rewrite exec_cons. erewrite fire_Run; cycle 1.
  { reflexivity. }
  { unfold step. simpl. rewrite Hv. fold path. unfold openExcl.
    rewrite Hl2. reflexivity. }
  simpl procs.
  rewrite exec_cons. erewrite fire_Run; cycle 1.
  { reflexivity. }
  { unfold step. simpl. rewrite Hv. unfold Read. fold path. rewrite Hl2.
    reflexivity. }
  simpl procs.
  rewrite exec_cons. erewrite fire_Run; cycle 1.
  { reflexivity. }
  { unfold step. simpl. rewrite Hv.
    rewrite (IsStale_frame m w w2) by reflexivity.
    rewrite Hstale. reflexivity. }
  simpl procs.
  rewrite exec_cons. erewrite fire_Run; cycle 1.
  { reflexivity. }
  { unfold step. simpl. rewrite Hv. fold path. unfold osRemove.
    rewrite Hl2. reflexivity. }
  simpl. unfold setLocks. simpl. fold path.
  now rewrite removeFile_createFile.
Qed.

Lemma storm_rounds n :
  forall j,
    exec defaultManager (flat_map stormRound (seq (S j) n))
      {| world := lateWorld j;
         procs := {| call := victim; pc := AtOpen; reclaims := j |}
                  :: replicate j {| call := intruder; pc := Returned None;
                                    reclaims := 0 |}
                  ++ replicate n (start intruder) |}
    = {| world := lateWorld (j + n);
         procs := {| call := victim; pc := AtOpen; reclaims := (j + n)%nat |}
                  :: replicate (j + n)
                       {| call := intruder; pc := Returned None;
                          reclaims := 0 |} |}.
Proof.
  induction n as [|n IH]; intros j.
  - simpl. now rewrite Nat.add_0_r, app_nil_r.
  - change (seq (S j) (S n)) with (S j :: seq (S (S j)) n).
    change (flat_map stormRound (S j :: seq (S (S j)) n))
      with (stormRound (S j) ++ flat_map stormRound (seq (S (S j)) n)).
    rewrite exec_app.
    change (replicate (S n) (start intruder))
      with (start intruder :: replicate n (start intruder)).
    pose proof (reclaim_round defaultManager (lateWorld j) victim intruder
                  "db/schema/*" j
                  (replicate j {| call := intruder; pc := Returned None;
                                  reclaims := 0 |})
                  (replicate n (start intruder))
                  eq_refl eq_refl eq_refl eq_refl) as Hround.
    rewrite length_replicate in Hround. rewrite Hround.
    change {| locks := locks (lateWorld j); agents := agents (lateWorld j);
              now := now (lateWorld j); nextIno := S (nextIno (lateWorld j)) |}
      with (lateWorld (S j)).
    rewrite (cons_middle _ (replicate j _)), app_assoc.
    rewrite <- replicate_S_end. rewrite IH.
    now replace (S j + n)%nat with (j + S n)%nat by lia.
Qed.

Lemma storm_outcome k :
  exec defaultManager (stormSched k) (boot (lateWorld 0) (stormCalls k))
  = {| world :=
         withLock (lockPath "db/schema/*")
           (callLock defaultManager (lateWorld k) victim) (lateWorld k);
       procs := {| call := victim; pc := Returned None; reclaims := k |}
                :: replicate k {| call := intruder; pc := Returned None;
                                  reclaims := 0 |} |}.
Proof.
  unfold stormSched, boot, stormCalls. rewrite exec_app.
  change (start <$> victim :: replicate k intruder)
    with (start victim :: (start <$> replicate k intruder)).
  rewrite fmap_replicate.
  pose proof (storm_rounds k 0%nat) as H. simpl replicate in H.
  simpl app in H. unfold start at 1. rewrite H. simpl Nat.add.
  rewrite exec_cons. erewrite fire_Run; cycle 1.
  { reflexivity. }
  { reflexivity. }
  rewrite exec_cons. erewrite fire_Run; cycle 1.
  { reflexivity. }
  { unfold step. simpl. unfold fdWrite, setLocks. simpl.
    rewrite Nat.eqb_refl. reflexivity. }
  reflexivity.
Qed.

(** C4, as the program has it.  A call of [Acquire] that finds the lock
    stale removes the record and calls [Acquire] again: with fuel for one
    call the model runs out, with fuel for two it returns, the lock taken.
    A lock that is not stale is reported as a conflict.  The number of
    retries has no bound: for every [k] there is a schedule in which [k]
    other calls take the lock one after the other, each lock being stale
    at once, and the call reclaims [k] times and then succeeds, no conflict
    being surfaced. *)
Theorem Acquire_reclaim_unbounded :
  (forall fuel m pid w resource agentID agentName operation ttl l,
     Read w resource = inl l ->
     (IsStale m w l = true ->
      Acquire 1 m pid w resource agentID agentName operation ttl = None /\
      Acquire (S (S fuel)) m pid w resource agentID agentName operation ttl
      = Some (withLock (lockPath resource)
                (newLock w pid resource agentID agentName operation
                   (resolveTTL m ttl))
                (without (lockPath resource) w), None)) /\
     (IsStale m w l = false ->
      Acquire (S fuel) m pid w resource agentID agentName operation ttl
      = Some (w, Some (lockedError resource l)))) /\
  (forall k,
     let s :=
       exec defaultManager (stormSched k)
         (boot (lateWorld 0) (stormCalls k)) in
     exists p,
       procs s !! 0%nat = Some p /\
       call p = victim /\ pc p = Returned None /\ reclaims p = k).
Proof.
  split.
  - intros fuel m pid w resource agentID agentName operation ttl l Hr.
    split; intros Hs.
    + split.
      * now apply (Acquire_stale_fuel _ _ _ _ _ _ _ _ l).
      * now apply (Acquire_stale _ _ _ _ _ _ _ _ _ l).
    + now apply Acquire_held.
  - intros k s. subst s. rewrite storm_outcome. simpl. eauto.
Qed.

Lemma Acquire_reclaim_unbounded_witness :
  let w := shortLockWorld 2000000000 0 in
  Read w "db/**/*" = inl shortLock /\
  IsStale defaultManager w shortLock = true /\
  Acquire 1 defaultManager 2 w "db/**/*" "agent-2" "" "seed" 0 = None /\
  (exists w',
     Acquire 2 defaultManager 2 w "db/**/*" "agent-2" "" "seed" 0
     = Some (w', None) /\
     exists l, Read w' "db/**/*" = inl l /\ AgentID l = "agent-2").
Proof.
  intros w.
  assert (Hr : Read w "db/**/*" = inl shortLock) by reflexivity.
  assert (Hs : IsStale defaultManager w shortLock = true) by reflexivity.
  destruct (proj1 (proj1 Acquire_reclaim_unbounded 0%nat defaultManager 2 w
                     "db/**/*" "agent-2" "" "seed" 0 shortLock Hr) Hs)
    as [H1 H2].
  split; [exact Hr|]. split; [exact Hs|]. split; [exact H1|].
  eexists. split; [exact H2|]. eexists. split; reflexivity.
Defined.

(** C4, as the claim has it, fails: against two calls whose locks are
    stale at once, a call reclaims twice and then takes the lock. *)
Lemma Acquire_single_retry_counterexample :
  ~ (forall m w calls sched p,
       In p (procs (exec m sched (boot w calls))) ->
       (reclaims p <= 1)%nat).
Proof.
  intros H.
  specialize (H defaultManager (lateWorld 0) (stormCalls 2) (stormSched 2)
                {| call := victim; pc := Returned None; reclaims := 2 |}).
  assert (Hin : In {| call := victim; pc := Returned None; reclaims := 2 |}
                  (procs (exec defaultManager (stormSched 2)
                            (boot (lateWorld 0) (stormCalls 2)))))
    by (vm_compute; auto).
  specialize (H Hin). simpl in H. lia.
Qed.

(** ** The two embeddings of Acquire agree *)

(** A call that runs alone, one system call after the other, ends where
    [Acquire] ends. *)
Lemma Acquire_alone fuel m w c w' r :
  Acquire fuel m (callPid c) w (callResource c) (callAgentID c)
    (callAgentName c) (callOperation c) (callTTL c)
  = Some (w', r) ->
  exists n k,
    exec m (replicate n (Run 0)) (boot w [c])
    = {| world := w';
         procs := [{| call := c; pc := Returned r; reclaims := k |}] |}.
Proof.
  destruct fuel as [|fuel]; [discriminate|].
  set (path := lockPath (callResource c)).
  destruct (lookupFile path (locks w)) as [f|] eqn:Hl.
  - destruct (Data f) as [l|] eqn:Hd.
    + assert (Hr : Read w (callResource c) = inl l)
        by (unfold Read; fold path; now rewrite Hl, Hd).
      destruct (IsStale m w l) eqn:Hs.
      * destruct fuel as [|fuel];
          [now rewrite (Acquire_stale_fuel _ _ _ _ _ _ _ _ l)|].
        rewrite (Acquire_stale _ _ _ _ _ _ _ _ _ l) by assumption.
        intros [= <- <-]. exists 6%nat, 1%nat. simpl replicate.
        rewrite exec_cons. erewrite fire_Run; cycle 1.
        { reflexivity. }
        { unfold step. simpl. unfold openExcl. fold path. rewrite Hl.
          reflexivity. }
        rewrite exec_cons. erewrite fire_Run; cycle 1.
        { reflexivity. }
        { unfold step. simpl. rewrite Hr. reflexivity. }
        rewrite exec_cons. erewrite fire_Run; cycle 1.
        { reflexivity. }
        { unfold step. simpl. rewrite Hs. reflexivity. }
        rewrite exec_cons. erewrite fire_Run; cycle 1.
        { reflexivity. }
        { unfold step. simpl. unfold osRemove. fold path. rewrite Hl.
          reflexivity. }
        rewrite exec_cons. erewrite fire_Run; cycle 1.
        { reflexivity. }
        { unfold step. simpl. unfold openExcl. fold path. simpl.
          rewrite lookupFile_removeFile_eq. reflexivity. }
        rewrite exec_cons. erewrite fire_Run; cycle 1.
        { reflexivity. }
        { unfold step. simpl. fold path. unfold fdWrite, setLocks. simpl.
          rewrite writeIno_createFile by apply lookupFile_removeFile_eq.
          reflexivity. }
        reflexivity.
      * rewrite (Acquire_held _ _ _ _ _ _ _ _ _ l) by assumption.
        intros [= <- <-]. exists 3%nat, 0%nat. simpl replicate.
        rewrite exec_cons. erewrite fire_Run; cycle 1.
        { reflexivity. }
        { unfold step. simpl. unfold openExcl. fold path. rewrite Hl.
          reflexivity. }
        rewrite exec_cons. erewrite fire_Run; cycle 1.
        { reflexivity. }
        { unfold step. simpl. rewrite Hr. reflexivity. }
        rewrite exec_cons. erewrite fire_Run; cycle 1.
        { reflexivity. }
        { unfold step. simpl. rewrite Hs. reflexivity. }
        reflexivity.
    + rewrite (Acquire_unreadable _ _ _ _ _ _ _ _ _ f) by assumption.
      intros [= <- <-]. exists 2%nat, 0%nat. simpl replicate.
      rewrite exec_cons. erewrite fire_Run; cycle 1.
      { reflexivity. }
      { unfold step. simpl. unfold openExcl. fold path. rewrite Hl.
        reflexivity. }
      rewrite exec_cons. erewrite fire_Run; cycle 1.
      { reflexivity. }
      { unfold step. simpl. unfold Read. fold path. rewrite Hl, Hd.
        reflexivity. }
      reflexivity.
  - rewrite Acquire_free by assumption.
    intros [= <- <-]. exists 2%nat, 0%nat. simpl replicate.
    rewrite exec_cons. erewrite fire_Run; cycle 1.
    { reflexivity. }
    { unfold step. simpl. unfold openExcl. fold path. rewrite Hl.
      reflexivity. }
    rewrite exec_cons. erewrite fire_Run; cycle 1.
    { reflexivity. }
    { unfold step. simpl. fold path. unfold fdWrite, setLocks. simpl.
      rewrite writeIno_createFile by assumption. reflexivity. }
    reflexivity.
Qed.

(** ** The directory stays well formed *)






(** ** The directory stays in the order of [os.ReadDir] *)

Lemma ascii_compare_N a b :
  Ascii.compare a b = N.compare (N_of_ascii a) (N_of_ascii b).
Proof. reflexivity. Qed.

Lemma ascii_compare_refl a : Ascii.compare a a = Eq.
Proof. rewrite ascii_compare_N. apply N.compare_refl. Qed.

Lemma ascii_compare_trans a b c :
  Ascii.compare a b = Lt -> Ascii.compare b c = Lt -> Ascii.compare a c = Lt.
Proof.
  rewrite !ascii_compare_N, !N.compare_lt_iff. apply N.lt_trans.
Qed.

Lemma string_compare_trans s1 :
  forall s2 s3,
    String.compare s1 s2 = Lt -> String.compare s2 s3 = Lt ->
    String.compare s1 s3 = Lt.
Proof.
  induction s1 as [|a s1 IH]; intros [|b s2] [|c s3]; simpl;
    try discriminate; auto.
  destruct (Ascii.compare a b) eqn:Hab; try discriminate;
    destruct (Ascii.compare b c) eqn:Hbc; try discriminate; intros H1 H2.
  - apply Ascii.compare_eq_iff in Hab, Hbc. subst.
    rewrite ascii_compare_refl. now apply (IH s2).
  - apply Ascii.compare_eq_iff in Hab. subst. now rewrite Hbc.
  - apply Ascii.compare_eq_iff in Hbc. subst. now rewrite Hab.
  - now rewrite (ascii_compare_trans a b c).
Qed.

Lemma ltb_trans s1 s2 s3 :
  String.ltb s1 s2 = true -> String.ltb s2 s3 = true ->
  String.ltb s1 s3 = true.
Proof.
  unfold String.ltb.
  destruct (String.compare s1 s2) eqn:H12; try discriminate.
  destruct (String.compare s2 s3) eqn:H23; try discriminate.
  now rewrite (string_compare_trans _ _ _ H12 H23).
Qed.

Lemma ltb_total s1 s2 :
  String.ltb s1 s2 = false -> s1 <> s2 -> String.ltb s2 s1 = true.
Proof.
  unfold String.ltb. intros H Hne. rewrite String.compare_antisym.
  destruct (String.compare s1 s2) eqn:Hc; try discriminate.
  - apply String.compare_eq_iff in Hc. contradiction.
  - reflexivity.
Qed.

Lemma string_compare_refl s : String.compare s s = Eq.
Proof.
  induction s as [|a s IH]; simpl; [reflexivity|].
  now rewrite ascii_compare_refl.
Qed.

Lemma ltb_irrefl s : String.ltb s s = false.
Proof. unfold String.ltb. now rewrite string_compare_refl. Qed.

Lemma sortedDir_absent name d :
  Forall (fun e => String.ltb name e.1 = true) d -> lookupFile name d = None.
Proof.
  induction d as [|[n f] d IH]; simpl; [reflexivity|].
  intros [Hn Hd]%Forall_cons. simpl in Hn.
  destruct (String.eqb_spec n name) as [->|]; [|auto].
  now rewrite ltb_irrefl in Hn.
Qed.

Lemma sortedDir_uniqueNames d : sortedDir d -> uniqueNames d.
Proof.
  induction d as [|[n f] d IH]; simpl; [auto|]. intros [Hn Hs].
  split; [now apply sortedDir_absent | auto].
Qed.

Lemma createFile_sorted name f d :
  lookupFile name d = None -> sortedDir d -> sortedDir (createFile name f d).
Proof.
  induction d as [|[n g] d IH]; simpl; [auto|].
  destruct (String.eqb_spec n name) as [->|Hne]; [discriminate|].
  intros Hfree [Hn Hs]. destruct (String.ltb name n) eqn:Hlt; simpl.
  - repeat split; auto. constructor; [assumption|].
    eapply Forall_impl; [exact Hn|]. simpl. intros e He.
    now apply (ltb_trans _ n).
  - split; [|auto].
    assert (Hlt' : String.ltb n name = true) by (apply ltb_total; auto).
    clear IH Hs Hfree Hlt. induction d as [|[n0 g0] d IHd]; simpl.
    + now constructor.
    + apply Forall_cons in Hn as [Hn0 Hn]. simpl in Hn0.
      destruct (String.ltb name n0); constructor; auto.
Qed.

Lemma removeFile_Forall (P : string * File -> Prop) name d :
  Forall P d -> Forall P (removeFile name d).
Proof.
  induction d as [|[n g] d IH]; simpl; [auto|].
  intros [H1 H2]%Forall_cons.
  destruct (String.eqb n name); [auto | constructor; auto].
Qed.

Lemma removeFile_sorted name d : sortedDir d -> sortedDir (removeFile name d).
Proof.
  induction d as [|[n g] d IH]; simpl; [auto|]. intros [Hn Hs].
  destruct (String.eqb n name); simpl; [auto|].
  split; [now apply removeFile_Forall | auto].
Qed.

Lemma writeIno_sorted name ino data d :
  sortedDir d -> sortedDir (writeIno name ino data d).
Proof.
  assert (Hall : forall (P : string -> Prop) d0,
            Forall (fun e => P e.1) d0 ->
            Forall (fun e => P e.1) (writeIno name ino data d0)).
  { intros P d0. induction d0 as [|[n g] d0 IH]; simpl; [auto|].
    intros [H1 H2]%Forall_cons.
    destruct (String.eqb n name && Nat.eqb (Ino g) ino); constructor; auto. }
  induction d as [|[n g] d IH]; simpl; [auto|]. intros [Hn Hs].
  destruct (String.eqb n name && Nat.eqb (Ino g) ino); simpl;
    (split; [exact (Hall (fun x => String.ltb n x = true) d Hn) | auto]).
Qed.

(** Every system call of [Acquire] keeps the directory sorted. *)
Lemma step_sorted m w p :
  sortedDir (locks w) -> sortedDir (locks (step m w p).1).
Proof.
  intros Hs. unfold step. destruct (pc p); simpl; auto.
  - unfold openExcl.
    destruct (lookupFile _ (locks w)) eqn:Hl; simpl; [assumption|].
    now apply createFile_sorted.
  - now apply writeIno_sorted.
  - now destruct (Read w _).
  - now destruct (IsStale m w existing).
  - unfold osRemove. destruct (lookupFile _ (locks w)); simpl; [|assumption].
    now apply removeFile_sorted.
Qed.



(** ** The heartbeat file of an agent with a plain ID *)

(** For an ID without path separators the file [IsStale] stats is the file
    the registry writes. *)
Lemma heartbeatPath_agentPath l :
  plainID (AgentID l) -> heartbeatPath l = agent.agentPath (AgentID l).
Proof.
  unfold plainID, heartbeatPath. intros H. now rewrite agentPath_map, H.
Qed.

Example plainID_generated : plainID "agent-4242-1789".
Proof. reflexivity. Qed.

(** * Further properties of the managers and the commands *)

(** ** Acquire and Release *)

Lemma Acquire_cases fuel m pid w resource agentID agentName operation ttl :
  let path := lockPath resource in
  let lock :=
    newLock w pid resource agentID agentName operation (resolveTTL m ttl) in
  (lookupFile path (locks w) = None /\
   Acquire (S (S fuel)) m pid w resource agentID agentName operation ttl
   = Some (withLock path lock w, None)) \/
  (exists l,
     Read w resource = inl l /\ IsStale m w l = true /\
     Acquire (S (S fuel)) m pid w resource agentID agentName operation ttl
     = Some (withLock path lock (without path w), None)) \/
  (exists l,
     Read w resource = inl l /\ IsStale m w l = false /\
     Acquire (S (S fuel)) m pid w resource agentID agentName operation ttl
     = Some (w, Some (lockedError resource l))) \/
  (Read w resource = inr ErrUnmarshal /\
   Acquire (S (S fuel)) m pid w resource agentID agentName operation ttl
   = Some (w, Some ErrAcquire)).
Proof.
  intros path lock. subst path lock.
  destruct (lookupFile (lockPath resource) (locks w)) as [f|] eqn:Hl.
  - destruct (Data f) as [l|] eqn:Hd.
    + assert (Hr : Read w resource = inl l)
        by (unfold Read; now rewrite Hl, Hd).
      destruct (IsStale m w l) eqn:Hs.
      * right; left. exists l. repeat split; auto.
        now apply (Acquire_stale _ _ _ _ _ _ _ _ _ l).
      * right; right; left. exists l. repeat split; auto.
        now apply Acquire_held.
    + right; right; right. split.
      * unfold Read. now rewrite Hl, Hd.
      * now apply (Acquire_unreadable _ _ _ _ _ _ _ _ _ f).
  - left. split; [reflexivity|]. now apply Acquire_free.
Qed.

Lemma Acquire_fuel fuel m pid w resource agentID agentName operation ttl w' r :
  Acquire fuel m pid w resource agentID agentName operation ttl
  = Some (w', r) ->
  forall fuel',
    Acquire (S (S fuel')) m pid w resource agentID agentName operation ttl
    = Some (w', r).
Proof.
  intros H fuel'.
  destruct fuel as [|fuel]; [discriminate|].
  destruct (lookupFile (lockPath resource) (locks w)) as [f|] eqn:Hl.
  - destruct (Data f) as [l|] eqn:Hd.
    + assert (Hr : Read w resource = inl l)
        by (unfold Read; now rewrite Hl, Hd).
      destruct (IsStale m w l) eqn:Hs.
      * destruct fuel as [|fuel].
        -- now rewrite (Acquire_stale_fuel _ _ _ _ _ _ _ _ l) in H.
        -- rewrite (Acquire_stale _ _ _ _ _ _ _ _ _ l) in H by assumption.
           now rewrite (Acquire_stale _ _ _ _ _ _ _ _ _ l).
      * rewrite (Acquire_held _ _ _ _ _ _ _ _ _ l) in H by assumption.
        now rewrite (Acquire_held _ _ _ _ _ _ _ _ _ l).
    + rewrite (Acquire_unreadable _ _ _ _ _ _ _ _ _ f) in H by assumption.
      now rewrite (Acquire_unreadable _ _ _ _ _ _ _ _ _ f).
  - rewrite Acquire_free in H by assumption. now rewrite Acquire_free.
Qed.

(** X1.  Run without interference, [Acquire] returns after at most one
    recursive call: fuel for two calls always gives a result, and more fuel
    gives the same one. *)
Theorem Acquire_returns fuel m pid w resource agentID agentName operation
    ttl :
  exists w' r,
    Acquire 2 m pid w resource agentID agentName operation ttl
    = Some (w', r) /\
    Acquire (S (S fuel)) m pid w resource agentID agentName operation ttl
    = Some (w', r).
Proof.
  destruct (Acquire_cases 0 m pid w resource agentID agentName operation ttl)
    as [[_ H]|[(l & _ & _ & H)|[(l & _ & _ & H)|[_ H]]]];
    do 2 eexists; (split; [exact H|]); now apply (Acquire_fuel _ _ _ _ _ _ _ _ _ _ _ H).
Qed.

Lemma lookupFile_In name f d : lookupFile name d = Some f -> In (name, f) d.
Proof.
  induction d as [|[n g] d IH]; simpl; [discriminate|].
  destruct (String.eqb_spec n name) as [->|]; [|auto].
  intros [= ->]. now left.
Qed.

Lemma listDir_In name f l d :
  In (name, f) d ->
  strings.HasSuffix name ".lock" = true ->
  Data f = Some l ->
  In l (listDir d).
Proof.
  induction d as [|[n g] d IH]; simpl; [contradiction|].
  intros [[= -> ->]|Hin] Hs Hd.
  - rewrite Hs, Hd. now left.
  - destruct (negb (strings.HasSuffix n ".lock")); [auto|].
    destruct (Data g); [right|]; auto.
Qed.

Lemma Read_withLock path l w resource :
  path = lockPath resource ->
  lookupFile path (locks w) = None ->
  Read (withLock path l w) resource = inl l.
Proof.
  intros -> H. unfold Read, withLock. simpl.
  now rewrite lookupFile_createFile_eq.
Qed.







(** X5.  [Release] is idempotent: after a release that succeeded, whether
    it removed the lock or found none, a second release of the resource by
    the same agent succeeds and changes nothing. *)
Theorem Release_twice w resource agentID w1 :
  Release w resource agentID = (w1, None) ->
  Release w1 resource agentID = (w1, None).
Proof.
  pose proof (Release_result w resource agentID) as H.
  assert (Habsent : forall w0,
            lookupFile (lockPath resource) (locks w0) = None ->
            Release w0 resource agentID = (w0, None)).
  { intros w0 H0. unfold Release, Read. now rewrite H0. }
  destruct (Read w resource) as [l|e] eqn:Hr.
  - destruct (String.eqb (AgentID l) agentID); rewrite H; [|discriminate].
    intros [= <-]. apply Habsent. simpl. apply lookupFile_removeFile_eq.
  - destruct e; rewrite H; try discriminate. intros [= <-].
    apply Habsent. unfold Read in Hr.
    destruct (lookupFile (lockPath resource) (locks w)) as [f|];
      [|reflexivity].
    destruct (Data f); discriminate.
Qed.

Lemma Release_twice_witness :
  exists w1,
    Release testWorld "resource-1" "agent-1" = (w1, None) /\
    Release w1 "resource-1" "agent-1" = (w1, None) /\
    lookupFile "resource-1.lock" (locks w1) = None.
Proof.
  eexists.
  assert (H : Release testWorld "resource-1" "agent-1"
              = (without "resource-1.lock" testWorld, None)) by reflexivity.
  split; [exact H|]. split; [exact (Release_twice _ _ _ _ H) | reflexivity].
Defined.

(** ** Keys *)

Lemma length_append (a b : string) :
  String.length (a +:+ b) = (String.length a + String.length b)%nat.
Proof. induction a as [|c a IH]; simpl; [reflexivity | now rewrite IH]. Qed.

Lemma append_inj_l (a b s : string) : a +:+ s = b +:+ s -> a = b.
Proof.
  revert b. induction a as [|c a IH]; intros [|c' b] H; simpl in H.
  - reflexivity.
  - apply (f_equal String.length) in H.
    rewrite !length_append in H. simpl in H. lia.
  - apply (f_equal String.length) in H.
    rewrite !length_append in H. simpl in H. lia.
  - injection H as -> H. f_equal. now apply IH.
Qed.

Lemma Read_same_key w r1 r2 :
  lockPath r1 = lockPath r2 -> Read w r2 = Read w r1.
Proof. unfold Read. now intros ->. Qed.

(** X6.  Two resources have the same key exactly when they agree after the
    substitution of the fillers.  The store does not tell such resources
    apart: the lock of one is read under the other, while it is not stale
    [Acquire] of the other is refused with the conflict error that names
    its owner, and [Release] of the other by that owner removes it. *)
Theorem colliding_resources fuel m pid w r1 r2 agentID agentName operation
    ttl :
  (lockPath r1 = lockPath r2 <->
   mapString lockFiller r1 = mapString lockFiller r2) /\
  (lockPath r1 = lockPath r2 ->
   forall l,
     Read w r1 = inl l ->
     Read w r2 = inl l /\
     (IsStale m w l = false ->
      Acquire (S fuel) m pid w r2 agentID agentName operation ttl
      = Some (w, Some (ErrLocked r2 (AgentID l) (AgentName l) (Operation l))))
     /\
     exists w',
       Release w r2 (AgentID l) = (w', None) /\
       Read w' r1 = inr ErrNotExist).
Proof.
  split.
  - rewrite !lockPath_map. split; [apply append_inj_l | now intros ->].
  - intros Hk l Hr.
    assert (Hr2 : Read w r2 = inl l) by now rewrite (Read_same_key w r1 r2).
    split; [exact Hr2|]. split.
    + intros Hs. now apply Acquire_held.
    + pose proof (Release_result w r2 (AgentID l)) as H.
      rewrite Hr2, String.eqb_refl in H. eexists. split; [exact H|].
      unfold Read. simpl. rewrite <- Hk.
      now rewrite lookupFile_removeFile_eq.
Qed.

(** The lock on [db/schema/*] is in the way of a lock on [db-schema-?]. *)
Lemma colliding_resources_witness :
  let w :=
    withLock (lockPath "db/schema/*")
      (testLock "db/schema/*" "agent-1" "migrate") (emptyWorld 0) in
  lockPath "db/schema/*" = lockPath "db-schema-?" /\
  Read w "db-schema-?" = inl (testLock "db/schema/*" "agent-1" "migrate") /\
  Acquire 1 defaultManager 2 w "db-schema-?" "agent-2" "" "edit" 0
  = Some (w, Some (ErrLocked "db-schema-?" "agent-1" "" "migrate")) /\
  exists w',
    Release w "db-schema-?" "agent-1" = (w', None) /\
    Read w' "db/schema/*" = inr ErrNotExist.
Proof.
  intros w.
  assert (Hk : lockPath "db/schema/*" = lockPath "db-schema-?")
    by reflexivity.
  assert (Hr : Read w "db/schema/*"
               = inl (testLock "db/schema/*" "agent-1" "migrate"))
    by reflexivity.
  destruct (proj2 (colliding_resources 0 defaultManager 2 w "db/schema/*"
                     "db-schema-?" "agent-2" "" "edit" 0) Hk _ Hr)
    as (H1 & H2 & H3).
  split; [exact Hk|]. split; [exact H1|]. split; [|exact H3].
  apply H2. reflexivity.
Defined.

Lemma occurs_append c a b : occurs c (a +:+ b) = occurs c a || occurs c b.
Proof.
  induction a as [|x a IH]; simpl; [reflexivity|].
  now rewrite IH, orb_assoc.
Qed.

Lemma occurs_mapString f c s :
  (forall x, Ascii.eqb (f x) c = false) -> occurs c (mapString f s) = false.
Proof.
  intros H. induction s as [|x s IH]; simpl; [reflexivity|].
  now rewrite H, IH.
Qed.

Lemma length_mapString f s :
  String.length (mapString f s) = String.length s.
Proof. induction s as [|x s IH]; simpl; [reflexivity | now rewrite IH]. Qed.

Lemma lockFiller_safe c x :
  c = "/"%char \/ c = "\"%char \/ c = "*"%char \/ c = "?"%char ->
  Ascii.eqb (lockFiller x) c = false.
Proof.
  unfold lockFiller.
  destruct (Ascii.eqb_spec x "/") as [->|H1];
    [intros [->|[->|[-> | ->]]]; reflexivity|].
  destruct (Ascii.eqb_spec x "\") as [->|H2];
    [intros [->|[->|[-> | ->]]]; reflexivity|].
  destruct (Ascii.eqb_spec x "*") as [->|H3];
    [intros [->|[->|[-> | ->]]]; reflexivity|].
  destruct (Ascii.eqb_spec x "?") as [->|H4];
    [intros [->|[->|[-> | ->]]]; reflexivity|].
  simpl. intros [->|[->|[-> | ->]]]; now apply Ascii.eqb_neq.
Qed.

Lemma agentFiller_safe c x :
  c = "/"%char \/ c = "\"%char -> Ascii.eqb (agentFiller x) c = false.
Proof.
  unfold agentFiller.
  destruct (Ascii.eqb_spec x "/") as [->|H1]; [intros [-> | ->]; reflexivity|].
  destruct (Ascii.eqb_spec x "\") as [->|H2]; [intros [-> | ->]; reflexivity|].
  simpl. intros [->| ->]; now apply Ascii.eqb_neq.
Qed.

(** X7.  The key of a resource and the path of an agent ID are names of
    files directly in their directories: the input with its bytes replaced
    one for one, followed by the extension, without any path separator, and
    in the key of a resource without [*] and [?] as well. *)
Theorem keys_are_file_names :
  (forall resource,
     exists stem,
       lockPath resource = stem +:+ ".lock" /\
       String.length stem = String.length resource /\
       forall c,
         c = "/"%char \/ c = "\"%char \/ c = "*"%char \/ c = "?"%char ->
         occurs c (lockPath resource) = false) /\
  (forall id,
     exists stem,
       agent.agentPath id = stem +:+ ".agent" /\
       String.length stem = String.length id /\
       forall c,
         c = "/"%char \/ c = "\"%char ->
         occurs c (agent.agentPath id) = false).
Proof.
  split.
  - intros resource. exists (mapString lockFiller resource).
    split; [apply lockPath_map|]. split; [apply length_mapString|].
    intros c Hc. rewrite lockPath_map, occurs_append.
    rewrite occurs_mapString by (intros x; now apply lockFiller_safe).
    destruct Hc as [->|[->|[-> | ->]]]; reflexivity.
  - intros id. exists (mapString agentFiller id).
    split; [apply agentPath_map|]. split; [apply length_mapString|].
    intros c Hc. rewrite agentPath_map, occurs_append.
    rewrite occurs_mapString by (intros x; now apply agentFiller_safe).
    destruct Hc as [->| ->]; reflexivity.
Qed.

(** ** The directory under every operation *)






(** ** CleanStale *)

Lemma dropStale_app m w a b :
  dropStale m w (a ++ b) = dropStale m w a ++ dropStale m w b.
Proof.
  induction a as [|[n f] a IH]; simpl; [reflexivity|].
  destruct (Data f) as [l|]; [destruct (IsStale m w l)|];
    simpl; now rewrite IH.
Qed.

Lemma lookupFile_dropStale_None m w name d :
  lookupFile name d = None -> lookupFile name (dropStale m w d) = None.
Proof.
  induction d as [|[n f] d IH]; simpl; [reflexivity|].
  destruct (String.eqb_spec n name) as [->|Hn]; [discriminate|]. intros H.
  destruct (Data f) as [l|]; [destruct (IsStale m w l)|];
    simpl; auto.
  - destruct (String.eqb_spec n name); [contradiction | auto].
  - destruct (String.eqb_spec n name); [contradiction | auto].
Qed.

Lemma cleanEach_wf m w suf :
  forall pre cleaned,
    uniqueNames (pre ++ suf) ->
    keyedByResource (pre ++ suf) ->
    cleanEach m (setLocks (dropStale m w pre ++ suf) w) (listDir suf) cleaned
    = (setLocks (dropStale m w (pre ++ suf)) w,
       cleaned ++ (Resource <$> List.filter (IsStale m w) (listDir suf))).
Proof.
  induction suf as [|[n f] suf IH]; intros pre cleaned Hu Hk.
  - simpl. now rewrite !app_nil_r.
  - assert (Hstep : forall cleaned',
              cleanEach m
                (setLocks (dropStale m w (pre ++ [(n, f)]) ++ suf) w)
                (listDir suf) cleaned'
              = (setLocks (dropStale m w (pre ++ (n, f) :: suf)) w,
                 cleaned'
                 ++ (Resource <$> List.filter (IsStale m w) (listDir suf)))).
    { intros cleaned'. rewrite IH.
      - now rewrite <- app_assoc.
      - now rewrite <- app_assoc.
      - now rewrite <- app_assoc. }
    rewrite dropStale_app in Hstep. simpl in Hstep.
    pose proof (uniqueNames_middle _ _ _ _ Hu) as [Hpre Hsuf].
    assert (Hkey : forall l, Data f = Some l -> n = lockPath (Resource l)).
    { unfold keyedByResource in Hk. rewrite Forall_app in Hk.
      destruct Hk as [_ Hk]. apply Forall_cons in Hk as [Hk1 _].
      exact Hk1. }
    simpl. destruct (Data f) as [l|] eqn:Hd.
    + pose proof (Hkey l eq_refl) as Hn.
      assert (Hsfx : strings.HasSuffix n ".lock" = true)
        by (rewrite Hn; apply lockPath_suffix).
      rewrite Hsfx. simpl.
      rewrite (IsStale_frame m w (setLocks _ w) l) by reflexivity.
      destruct (IsStale m w l) eqn:Hst.
      * unfold osRemove. simpl. rewrite <- Hn.
        rewrite lookupFile_app, lookupFile_dropStale_None by assumption.
        simpl. rewrite String.eqb_refl. simpl.
        rewrite removeFile_app. simpl. rewrite String.eqb_refl.
        rewrite (removeFile_absent n suf) by assumption.
        rewrite (removeFile_absent n (dropStale m w pre))
          by now apply lookupFile_dropStale_None.
        rewrite app_nil_r in Hstep. rewrite Hstep.
        now rewrite <- app_assoc.
      * rewrite <- app_assoc in Hstep. apply Hstep.
    + rewrite <- app_assoc in Hstep.
      destruct (strings.HasSuffix n ".lock"); simpl; apply Hstep.
Qed.

Lemma listDir_dropStale m w d :
  listDir (dropStale m w d)
  = List.filter (fun l => negb (IsStale m w l)) (listDir d).
Proof.
  induction d as [|[n f] d IH]; simpl; [reflexivity|].
  destruct (Data f) as [l|] eqn:Hd.
  - destruct (IsStale m w l) eqn:Hs; simpl.
    + destruct (strings.HasSuffix n ".lock"); simpl; [|exact IH].
      now rewrite Hs.
    + destruct (strings.HasSuffix n ".lock"); simpl; [|exact IH].
      now rewrite Hd, Hs, IH.
  - simpl. destruct (strings.HasSuffix n ".lock"); simpl; [|exact IH].
    now rewrite Hd.
Qed.

Lemma cleanEach_fresh m w ls cleaned :
  Forall (fun l => IsStale m w l = false) ls ->
  cleanEach m w ls cleaned = (w, cleaned).
Proof.
  induction 1 as [|l ls Hl _ IH]; simpl; [reflexivity|]. now rewrite Hl.
Qed.

(** X9.  In a directory whose lock files are under the keys of their
    resources, [CleanStale] removes the files of the stale locks and no
    other file, and returns their resources in the order of the listing;
    the locks listed afterwards are those that were not stale, and a second
    run at the same clock reading cleans nothing. *)
Theorem CleanStale_exact m w :
  wfDir (locks w) ->
  let w' := setLocks (dropStale m w (locks w)) w in
  CleanStale m w
  = (w', Resource <$> List.filter (IsStale m w) (List w)) /\
  List w' = List.filter (fun l => negb (IsStale m w l)) (List w) /\
  (forall l, In l (List w') -> IsStale m w' l = false) /\
  CleanStale m w' = (w', []).
Proof.
  intros [Hu Hk] w'.
  assert (Hl : List w' = List.filter (fun l => negb (IsStale m w l)) (List w))
    by apply listDir_dropStale.
  assert (Hf : forall l, In l (List w') -> IsStale m w' l = false).
  { intros l Hin. rewrite Hl in Hin. apply filter_In in Hin as [_ Hin].
    rewrite (IsStale_frame m w w' l) by reflexivity.
    now apply negb_true_iff. }
  split; [|split; [exact Hl | split; [exact Hf|]]].
  - unfold CleanStale, List.
    pose proof (cleanEach_wf m w (locks w) [] [] Hu Hk) as H.
    simpl in H. rewrite setLocks_locks in H. exact H.
  - unfold CleanStale. apply cleanEach_fresh. apply List.Forall_forall.
    exact Hf.
Qed.

(** Four hundred seconds after the locks of the test were taken all three
    are past their TTL. *)
Lemma CleanStale_exact_witness :
  let w := setNow 400000000000 testWorld in
  wfDir (locks w) /\
  CleanStale defaultManager w
  = (setLocks [] w, ["resource-1"; "resource-2"; "resource-3"]) /\
  CleanStale defaultManager (setLocks [] w) = (setLocks [] w, []).
Proof.
  intros w. split; [exact testWorld_wf|].
  destruct (CleanStale_exact defaultManager w testWorld_wf)
    as (H1 & _ & _ & H2).
  split; [exact H1 | exact H2].
Defined.

(** ** List and Read *)

Lemma In_listDir l d :
  In l (listDir d) <->
  exists n f,
    In (n, f) d /\ strings.HasSuffix n ".lock" = true /\ Data f = Some l.
Proof.
  split.
  - induction d as [|[n f] d IH]; simpl; [contradiction|].
    destruct (strings.HasSuffix n ".lock") eqn:Hs; simpl.
    + destruct (Data f) as [l'|] eqn:Hd.
      * intros [->|Hin].
        -- exists n, f. auto.
        -- destruct (IH Hin) as (n' & f' & ? & ? & ?). exists n', f'. auto.
      * intros Hin.
        destruct (IH Hin) as (n' & f' & ? & ? & ?). exists n', f'. auto.
    + intros Hin.
      destruct (IH Hin) as (n' & f' & ? & ? & ?). exists n', f'. auto.
  - intros (n & f & Hin & Hs & Hd). exact (listDir_In n f l d Hin Hs Hd).
Qed.

Lemma uniqueNames_lookup n f d :
  uniqueNames d -> In (n, f) d -> lookupFile n d = Some f.
Proof.
  induction d as [|[n0 f0] d IH]; simpl; [contradiction|].
  intros [H0 Hu] [[= -> ->]|Hin].
  - now rewrite String.eqb_refl.
  - destruct (String.eqb_spec n0 n) as [->|]; [|auto].
    rewrite (IH Hu Hin) in H0. discriminate.
Qed.

Lemma NoDup_keys d :
  wfDir d -> NoDup ((fun l => lockPath (Resource l)) <$> listDir d).
Proof.
  induction d as [|[n f] d IH]; simpl; [constructor|].
  intros [[H0 Hu] Hk]. apply Forall_cons in Hk as [Hk0 Hk].
  assert (IH' := IH (conj Hu Hk)).
  destruct (strings.HasSuffix n ".lock"); simpl; [|exact IH'].
  destruct (Data f) as [l|] eqn:Hd; [|exact IH'].
  simpl. constructor; [|exact IH'].
  intros Hin. apply list_elem_of_fmap in Hin as (l' & Hl' & Hin).
  apply list_elem_of_In, In_listDir in Hin as (n' & f' & Hin & _ & Hd').
  assert (n' = n).
  { simpl in Hk0. rewrite (Hk0 l Hd), Hl'.
    apply (proj1 (List.Forall_forall _ _) Hk (n', f') Hin l' Hd'). }
  subst n'. rewrite (uniqueNames_lookup n f' d Hu Hin) in H0. discriminate.
Qed.

(** X10.  In a directory whose lock files are under the keys of their
    resources, [List] returns exactly the locks [Read] finds: a lock is
    listed if and only if it is the one read under its resource; no two
    listed locks have the same key, and so none the same resource. *)
Theorem List_Read w :
  wfDir (locks w) ->
  (forall l, In l (List w) <-> Read w (Resource l) = inl l) /\
  NoDup ((fun l => lockPath (Resource l)) <$> List w) /\
  NoDup (Resource <$> List w).
Proof.
  intros Hwf. split; [|split].
  - intros l. unfold List, Read. rewrite In_listDir. split.
    + intros (n & f & Hin & _ & Hd).
      pose proof (proj1 (List.Forall_forall _ _) (proj2 Hwf) (n, f) Hin l Hd)
        as Hn. simpl in Hn. subst n.
      now rewrite (uniqueNames_lookup _ f _ (proj1 Hwf) Hin), Hd.
    + destruct (lookupFile (lockPath (Resource l)) (locks w)) as [f|] eqn:Hl;
        [|discriminate].
      destruct (Data f) as [l'|] eqn:Hd; [|discriminate]. intros [= ->].
      exists (lockPath (Resource l)), f.
      split; [now apply lookupFile_In|]. split; [apply lockPath_suffix|].
      exact Hd.
  - now apply NoDup_keys.
  - pose proof (NoDup_keys _ Hwf) as H.
    change ((fun l => lockPath (Resource l)) <$> listDir (locks w))
      with ((lockPath ∘ Resource) <$> listDir (locks w)) in H.
    rewrite list_fmap_compose in H. exact (NoDup_fmap_1 lockPath _ H).
Qed.

Lemma List_Read_witness :
  wfDir (locks testWorld) /\
  In (testLock "resource-2" "agent-1" "task 2") (List testWorld) /\
  NoDup (Resource <$> List testWorld).
Proof.
  split; [exact testWorld_wf|].
  destruct (List_Read testWorld testWorld_wf) as (H1 & _ & H3).
  split; [|exact H3].
  apply (proj2 (H1 (testLock "resource-2" "agent-1" "task 2"))). reflexivity.
Defined.

(** ** Staleness over time, and the liveness of the owner *)

(** X11.  While the heartbeat files do not change, a lock that is stale
    stays stale as the clock advances; a lock whose TTL has elapsed stays
    stale whatever becomes of the heartbeat files. *)
Theorem IsStale_over_time m w l t :
  now w <= t ->
  IsStale m w l = true ->
  IsStale m (setNow t w) l = true /\
  ((time.Since (now w) (AcquiredAt l) >? time.Seconds (TTLSeconds l)) = true ->
   forall a, IsStale m (setAgents a (setNow t w)) l = true).
Proof.
  intros Ht Hs. split.
  - apply (IsStale_later m w (setNow t w) l l); auto. simpl. lia.
  - intros Httl a. unfold IsStale. simpl.
    assert (H : (time.Since t (AcquiredAt l) >? time.Seconds (TTLSeconds l))
                = true).
    { apply Z.gtb_gt. apply Z.gtb_gt in Httl.
      pose proof (Since_mono (now w) t (AcquiredAt l) (AcquiredAt l)).
      lia. }
    now rewrite H.
Qed.

(** The lock of one second, two seconds and then a minute after it was
    taken; in between the owner has written a heartbeat. *)
Lemma IsStale_over_time_witness :
  let w := shortLockWorld 2000000000 0 in
  now w <= 60000000000 /\
  IsStale defaultManager w shortLock = true /\
  IsStale defaultManager (setNow 60000000000 w) shortLock = true /\
  IsStale defaultManager
    (setAgents {[ "agent-1.agent" := heartbeatAt 59000000000 "agent-1" ]}
       (setNow 60000000000 w)) shortLock = true.
Proof.
  intros w.
  assert (H1 : now w <= 60000000000) by (vm_compute; discriminate).
  assert (H2 : IsStale defaultManager w shortLock = true) by reflexivity.
  destruct (IsStale_over_time defaultManager w shortLock 60000000000 H1 H2)
    as [H3 H4].
  split; [exact H1|]. split; [exact H2|]. split; [exact H3|].
  apply H4. reflexivity.
Defined.







(** ** One lock for the files of a pattern *)



(** ** Two reclaims of one stale lock *)

Lemma fire_first m w p q w' p' :
  step m w p = (w', p') ->
  fire m {| world := w; procs := [p; q] |} (Run 0)
  = {| world := w'; procs := [p'; q] |}.
Proof. intros H. unfold fire. simpl. now rewrite H. Qed.

Lemma fire_second m w p q w' q' :
  step m w q = (w', q') ->
  fire m {| world := w; procs := [p; q] |} (Run 1)
  = {| world := w'; procs := [p; q'] |}.
Proof. intros H. unfold fire. simpl. now rewrite H. Qed.

Lemma reclaim_judged m w c1 c2 l0 :
  callResource c2 = callResource c1 ->
  Read w (callResource c1) = inl l0 ->
  IsStale m w l0 = true ->
  exec m bothJudge (boot w [c1; c2])
  = {| world := w;
       procs := [ {| call := c1; pc := AtRemove l0; reclaims := 0 |};
                  {| call := c2; pc := AtRemove l0; reclaims := 0 |} ] |}.
Proof.
  intros Hc Hr Hs.
  assert (Hl : exists f, lookupFile (lockPath (callResource c1)) (locks w)
                         = Some f).
  { unfold Read in Hr.
    destruct (lookupFile (lockPath (callResource c1)) (locks w)) as [f|];
      [now exists f | discriminate]. }
  destruct Hl as [f Hl].
  unfold bothJudge, boot. simpl fmap.
  rewrite exec_cons.
  erewrite fire_first
    by (unfold step, start; simpl; unfold openExcl; rewrite Hl; reflexivity).
  rewrite exec_cons.
  erewrite fire_first by (unfold step; simpl; rewrite Hr; reflexivity).
  rewrite exec_cons.
  erewrite fire_first by (unfold step; simpl; rewrite Hs; reflexivity).
  rewrite exec_cons.
  erewrite fire_second
    by (unfold step, start; simpl; rewrite Hc; unfold openExcl; rewrite Hl;
        reflexivity).
  rewrite exec_cons.
  erewrite fire_second
    by (unfold step; simpl; rewrite Hc, Hr; reflexivity).
  rewrite exec_cons.
  erewrite fire_second by (unfold step; simpl; rewrite Hs; reflexivity).
  reflexivity.
Qed.

Lemma reclaim_takes m w c existing q r :
  (exists f, lookupFile (lockPath (callResource c)) (locks w) = Some f) ->
  exec m firstReclaims
    {| world := w;
       procs := [ {| call := c; pc := AtRemove existing; reclaims := r |};
                  q ] |}
  = {| world :=
         withLock (lockPath (callResource c)) (callLock m w c)
           (without (lockPath (callResource c)) w);
       procs := [ {| call := c; pc := Returned None; reclaims := S r |};
                  q ] |}.
Proof.
  intros [f Hl]. unfold firstReclaims.
  rewrite exec_cons.
  erewrite fire_first
    by (unfold step; simpl; rewrite (osRemove_present _ _ f Hl);
        reflexivity).
  rewrite exec_cons.
  erewrite fire_first
    by (unfold step; simpl; unfold openExcl; simpl;
        rewrite lookupFile_removeFile_eq; reflexivity).
  rewrite exec_cons.
  erewrite fire_first by (unfold step; simpl; reflexivity).
  unfold exec. simpl. f_equal. unfold fdWrite, setLocks, withLock. simpl.
  rewrite writeIno_createFile by apply lookupFile_removeFile_eq.
  reflexivity.
Qed.

Lemma reclaim_takes_second m w c existing p r :
  (exists f, lookupFile (lockPath (callResource c)) (locks w) = Some f) ->
  exec m secondReclaims
    {| world := w;
       procs := [ p;
                  {| call := c; pc := AtRemove existing; reclaims := r |} ] |}
  = {| world :=
         withLock (lockPath (callResource c)) (callLock m w c)
           (without (lockPath (callResource c)) w);
       procs := [ p;
                  {| call := c; pc := Returned None; reclaims := S r |} ] |}.
Proof.
  intros [f Hl]. unfold secondReclaims.
  rewrite exec_cons.
  erewrite fire_second
    by (unfold step; simpl; rewrite (osRemove_present _ _ f Hl);
        reflexivity).
  rewrite exec_cons.
  erewrite fire_second
    by (unfold step; simpl; unfold openExcl; simpl;
        rewrite lookupFile_removeFile_eq; reflexivity).
  rewrite exec_cons.
  erewrite fire_second by (unfold step; simpl; reflexivity).
  unfold exec. simpl. f_equal. unfold fdWrite, setLocks, withLock. simpl.
  rewrite writeIno_createFile by apply lookupFile_removeFile_eq.
  reflexivity.
Qed.

(** X15.  The reclaim of a stale lock is a check followed by an act, and
    the remove takes whatever file is under the key by then.  When two
    calls have both judged the lock under the key stale, the first removes
    it, takes the lock and returns with success; the second then removes
    the lock of the first, which it has never read, takes the lock and
    returns with success as well: both calls have succeeded, and the
    directory holds the lock of the second only. *)
Theorem reclaim_check_then_act m w c1 c2 l0 :
  callResource c2 = callResource c1 ->
  Read w (callResource c1) = inl l0 ->
  IsStale m w l0 = true ->
  let mid := exec m (bothJudge ++ firstReclaims) (boot w [c1; c2]) in
  let s := exec m secondReclaims mid in
  (pc <$> procs mid = [Returned None; AtRemove l0] /\
   Read (world mid) (callResource c1) = inl (callLock m w c1)) /\
  (pc <$> procs s = [Returned None; Returned None] /\
   Read (world s) (callResource c1) = inl (callLock m w c2)) /\
  agents (world s) = agents w /\ now (world s) = now w.
Proof.
  intros Hc Hr Hs mid s.
  assert (Hl : exists f, lookupFile (lockPath (callResource c1)) (locks w)
                         = Some f).
  { unfold Read in Hr.
    destruct (lookupFile (lockPath (callResource c1)) (locks w)) as [f|];
      [now exists f | discriminate]. }
  assert (Hmid : mid
                 = {| world :=
                        withLock (lockPath (callResource c1))
                          (callLock m w c1)
                          (without (lockPath (callResource c1)) w);
                      procs :=
                        [ {| call := c1; pc := Returned None;
                             reclaims := 1 |};
                          {| call := c2; pc := AtRemove l0;
                             reclaims := 0 |} ] |}).
  { unfold mid. rewrite exec_app, (reclaim_judged m w c1 c2 l0) by assumption.
    now apply reclaim_takes. }
  assert (Hfree : lookupFile (lockPath (callResource c1))
                    (locks (without (lockPath (callResource c1)) w)) = None)
    by (simpl; apply lookupFile_removeFile_eq).
  split.
  - rewrite Hmid. split; [reflexivity|]. simpl world.
    now apply Read_withLock.
  - unfold s. rewrite Hmid. rewrite reclaim_takes_second; cycle 1.
    { simpl. rewrite Hc. eexists. now apply lookupFile_createFile_eq. }
    simpl. split; [|split; reflexivity]. split; [reflexivity|].
    rewrite Hc. unfold Read. simpl.
    rewrite lookupFile_createFile_eq by apply lookupFile_removeFile_eq.
    reflexivity.
Qed.

(** Two seconds after the lock of one second was taken [agent-2] and
    [agent-3] reclaim it.  The lock [agent-2] takes is one of five minutes
    and not stale when [agent-3] removes it. *)
Lemma reclaim_check_then_act_witness :
  let m := defaultManager in
  let w := shortLockWorld 2000000000 0 in
  let c1 := dbCall 2 "agent-2" in
  let c2 := dbCall 3 "agent-3" in
  let mid := exec m (bothJudge ++ firstReclaims) (boot w [c1; c2]) in
  let s := exec m secondReclaims mid in
  Read (world mid) "db/**/*" = inl (callLock m w c1) /\
  IsStale m (world mid) (callLock m w c1) = false /\
  pc <$> procs s = [Returned None; Returned None] /\
  Read (world s) "db/**/*" = inl (callLock m w c2).
Proof.
  intros m w c1 c2 mid s.
  assert (H1 : callResource c2 = callResource c1) by reflexivity.
  assert (H2 : Read w (callResource c1) = inl shortLock) by reflexivity.
  assert (H3 : IsStale m w shortLock = true) by reflexivity.
  destruct (reclaim_check_then_act m w c1 c2 shortLock H1 H2 H3)
    as ((_ & Hmid) & (Hpc & Hr) & _).
  split; [exact Hmid|]. split; [vm_compute; reflexivity|].
  split; [exact Hpc | exact Hr].
Defined.

(** ** The agent registry *)

Lemma In_entries name f (d : agent.Dir) :
  In (name, f) (agent.entries d) <-> d !! name = Some f.
Proof.
  unfold agent.entries. rewrite <- list_elem_of_In.
  rewrite merge_sort_Permutation. apply elem_of_map_to_list.
Qed.

Lemma In_listEntries a es :
  In a (agent.listEntries es) <->
  exists name f,
    In (name, f) es /\ strings.HasSuffix name ".agent" = true /\
    agent.Data f = a.
Proof.
  induction es as [|[n f] es IH]; simpl.
  - split; [contradiction | now intros (? & ? & [] & _)].
  - destruct (strings.HasSuffix n ".agent") eqn:Hs; simpl.
    + rewrite IH. split.
      * intros [<-|(n' & f' & ? & ? & ?)].
        -- exists n, f. auto.
        -- exists n', f'. auto.
      * intros (n' & f' & [[= <- <-]|Hin] & Hs' & Ha).
        -- now left.
        -- right. exists n', f'. auto.
    + rewrite IH. split.
      * intros (n' & f' & ? & ? & ?). exists n', f'. auto.
      * intros (n' & f' & [[= <- <-]|Hin] & Hs' & Ha).
        -- congruence.
        -- exists n', f'. auto.
Qed.

Lemma In_agent_List a (d : agent.Dir) :
  In a (agent.List d) <->
  exists name f,
    d !! name = Some f /\ strings.HasSuffix name ".agent" = true /\
    agent.Data f = a.
Proof.
  unfold agent.List. rewrite In_listEntries.
  split; intros (n & f & H & ? & ?); exists n, f;
    (split; [now apply In_entries | auto]).
Qed.

Lemma agentPath_suffix id :
  strings.HasSuffix (agent.agentPath id) ".agent" = true.
Proof. unfold agent.agentPath. apply HasSuffix_app. Qed.





(** X18.  After [Deregister] the agent is unknown: [Read] fails, a second
    [Deregister] changes nothing, and [UpdateTask] and [UpdateLocks] fail
    with the error of the read and leave the directory as it is.
    [Heartbeat] does not fail: it registers the agent anew.  The files of
    the other agents are untouched. *)
Theorem Deregister_effect now pid d id task locks :
  let d' := agent.Deregister d id in
  agent.Read d' id = inr agent.ErrNotExist /\
  agent.Deregister d' id = d' /\
  (forall path, path <> agent.agentPath id -> d' !! path = d !! path) /\
  agent.UpdateTask now d' id task = (d', Some agent.ErrNotExist) /\
  agent.UpdateLocks now d' id locks = (d', Some agent.ErrNotExist) /\
  agent.Heartbeat now pid d' id = agent.Register now pid d' id "".
Proof.
  intros d'.
  assert (Hl : d' !! agent.agentPath id = None) by apply lookup_delete_eq.
  assert (Hr : agent.Read d' id = inr agent.ErrNotExist)
    by (unfold agent.Read; now rewrite Hl).
  split; [exact Hr|]. split; [|split; [|split; [|split]]].
  - unfold agent.Deregister. now apply delete_id.
  - intros path Hne. unfold d', agent.Deregister.
    now rewrite lookup_delete_ne.
  - unfold agent.UpdateTask. now rewrite Hr.
  - unfold agent.UpdateLocks. now rewrite Hr.
  - unfold agent.Heartbeat. now rewrite Hr.
Qed.

(** X19.  Two agent IDs have the same file exactly when they agree after
    the substitution of the filler.  The registry does not tell such
    agents apart: [Register] of one replaces the record of the other, which
    [Read] then returns under both IDs, and [Deregister] of one removes the
    record of both. *)
Theorem colliding_agents now pid d id1 id2 name :
  (agent.agentPath id1 = agent.agentPath id2 <->
   mapString agentFiller id1 = mapString agentFiller id2) /\
  (agent.agentPath id1 = agent.agentPath id2 ->
   (exists a,
      agent.Read (agent.Register now pid d id2 name) id1 = inl a /\
      agent.ID a = id2 /\ agent.LocksHeld a = []) /\
   agent.Read (agent.Deregister (agent.Register now pid d id1 name) id2) id1
   = inr agent.ErrNotExist).
Proof.
  split.
  - rewrite !agentPath_map. split; [apply append_inj_l | now intros ->].
  - intros Hk. split.
    + eexists. unfold agent.Read, agent.Register, agent.save. simpl.
      rewrite Hk, lookup_insert_eq. split; [reflexivity|]. split; reflexivity.
    + unfold agent.Read, agent.Deregister. rewrite Hk.
      now rewrite lookup_delete_eq.
Qed.

Lemma colliding_agents_witness :
  agent.agentPath "team/a" = agent.agentPath "team-a" /\
  (exists a,
     agent.Read (agent.Register 0 2 empty "team-a" "B") "team/a" = inl a /\
     agent.ID a = "team-a" /\ agent.LocksHeld a = []) /\
  agent.Read (agent.Deregister (agent.Register 0 2 empty "team/a" "B") "team-a")
    "team/a"
  = inr agent.ErrNotExist.
Proof.
  assert (H : agent.agentPath "team/a" = agent.agentPath "team-a")
    by reflexivity.
  split; [exact H|].
  exact (proj2 (colliding_agents 0 2 empty "team/a" "team-a" "B") H).
Defined.

Lemma agent_cleanEach_spec cfg now agents :
  forall (d : agent.Dir) cleaned,
    (agent.cleanEach cfg now d agents cleaned).2
    = cleaned
      ++ (agent.ID
            <$> List.filter (fun a => negb (agent.IsAlive cfg now a)) agents)
    /\
    forall path,
      (agent.cleanEach cfg now d agents cleaned).1 !! path
      = if existsb
             (fun a =>
                negb (agent.IsAlive cfg now a)
                && String.eqb (agent.agentPath (agent.ID a)) path) agents
        then None
        else d !! path.
Proof.
  induction agents as [|a agents IH]; intros d cleaned; simpl.
  - split; [now rewrite app_nil_r | reflexivity].
  - destruct (agent.IsAlive cfg now a); simpl.
    + apply IH.
    + destruct (IH (agent.Deregister d (agent.ID a)) (cleaned ++ [agent.ID a]))
        as [H1 H2].
      split; [now rewrite H1, <- app_assoc|].
      intros path. rewrite H2. unfold agent.Deregister.
      destruct (String.eqb_spec (agent.agentPath (agent.ID a)) path)
        as [->|Hne].
      * rewrite lookup_delete_eq. now destruct (existsb _ _).
      * now rewrite lookup_delete_ne.
Qed.

Lemma agent_CleanStale_lookup cfg now (d : agent.Dir) path :
  filedByID d ->
  (agent.CleanStale cfg now d).1 !! path
  = match d !! path with
    | Some f => if agent.IsAlive cfg now (agent.Data f) then Some f else None
    | None => None
    end.
Proof.
  intros Hf.
  destruct (agent_cleanEach_spec cfg now (agent.List d) d []) as [_ H2].
  fold (agent.CleanStale cfg now d) in H2. rewrite H2.
  destruct (d !! path) as [f|] eqn:Hp; [|now destruct (existsb _ _)].
  pose proof (Hf _ _ Hp) as Hpath.
  destruct (agent.IsAlive cfg now (agent.Data f)) eqn:Ha.
  - destruct (existsb _ _) eqn:He; [|reflexivity].
    apply existsb_exists in He as (a & Hin & Hdead).
    apply andb_true_iff in Hdead as [Hdead Heq].
    apply String.eqb_eq in Heq.
    apply In_agent_List in Hin as (n' & f' & Hn' & _ & <-).
    rewrite <- (Hf _ _ Hn') in Heq. subst n'.
    rewrite Hp in Hn'. injection Hn' as <-.
    rewrite Ha in Hdead. discriminate.
  - replace (existsb _ _) with true; [reflexivity|].
    symmetry. apply existsb_exists. exists (agent.Data f). split.
    + apply In_agent_List. exists path, f. split; [exact Hp|].
      split; [|reflexivity]. rewrite Hpath. apply agentPath_suffix.
    + rewrite Ha. simpl. rewrite <- Hpath. apply String.eqb_refl.
Qed.

Lemma agent_CleanStale_alive cfg now (d : agent.Dir) a :
  filedByID d ->
  In a (agent.List (agent.CleanStale cfg now d).1) ->
  agent.IsAlive cfg now a = true.
Proof.
  intros Hf Hin. apply In_agent_List in Hin as (n & f & Hn & _ & <-).
  rewrite agent_CleanStale_lookup in Hn by assumption.
  destruct (d !! n) as [g|]; [|discriminate].
  destruct (agent.IsAlive cfg now (agent.Data g)) eqn:Ha; [|discriminate].
  now injection Hn as <-.
Qed.

(** X20.  In a directory whose files are at the paths of their IDs,
    [CleanStale] of the registry removes exactly the files of the agents
    that are not alive and returns their IDs in the order of the listing;
    the agents listed afterwards are alive. *)
Theorem agent_CleanStale_exact cfg now (d : agent.Dir) :
  filedByID d ->
  let d' := (agent.CleanStale cfg now d).1 in
  (forall path,
     d' !! path
     = match d !! path with
       | Some f => if agent.IsAlive cfg now (agent.Data f) then Some f else None
       | None => None
       end) /\
  (agent.CleanStale cfg now d).2
  = agent.ID
      <$> List.filter (fun a => negb (agent.IsAlive cfg now a)) (agent.List d)
  /\
  (forall a, In a (agent.List d') -> agent.IsAlive cfg now a = true).
Proof.
  intros Hf d'. split; [|split].
  - intros path. now apply agent_CleanStale_lookup.
  - destruct (agent_cleanEach_spec cfg now (agent.List d) d []) as [H1 _].
    exact H1.
  - intros a. now apply agent_CleanStale_alive.
Qed.

(** Two agents, one silent for two hundred seconds. *)
Lemma agent_CleanStale_exact_witness :
  let d : agent.Dir :=
    {[ "agent-1.agent" := heartbeatAt 0 "agent-1";
       "agent-2.agent" := heartbeatAt 150000000000 "agent-2" ]} in
  filedByID d /\
  (agent.CleanStale config.DefaultConfig 200000000000 d).2 = ["agent-1"] /\
  (agent.CleanStale config.DefaultConfig 200000000000 d).1 !! "agent-1.agent"
  = None /\
  (agent.CleanStale config.DefaultConfig 200000000000 d).1 !! "agent-2.agent"
  = Some (heartbeatAt 150000000000 "agent-2").
Proof.
  intros d.
  assert (H : filedByID d).
  { intros path f Hl.
    apply lookup_insert_Some in Hl as [[<- <-]|[_ Hl]]; [reflexivity|].
    apply lookup_singleton_Some in Hl as [<- <-]. reflexivity. }
  split; [exact H|].
  destruct (agent_CleanStale_exact config.DefaultConfig 200000000000 d H)
    as (H1 & H2 & _).
  split; [|split].
  - rewrite H2. vm_compute. reflexivity.
  - rewrite H1. reflexivity.
  - rewrite H1. reflexivity.
Defined.

(** ** The heartbeat of the registry and the staleness of a lock *)







(** ** The settings of a loaded configuration *)

(** X22.  [Load] replaces the settings the file leaves at zero by the
    defaults and keeps every other value, negative ones as well, and the
    patterns.  So no setting of a loaded configuration is zero, loading the
    result again changes nothing, and a lock acquired under it never has
    the TTL zero.  A negative stale threshold passes unchanged, and under
    it every lock is stale whose times are not in the future. *)
Theorem Load_settings file cfg :
  config.Load file = Some cfg ->
  let s := config.ConfigSettings cfg in
  (config.SettingsDefaultTTL s <> 0 /\ config.StaleThreshold s <> 0 /\
   config.HeartbeatInterval s <> 0) /\
  (exists raw,
     file = Some raw /\
     config.Protected cfg = config.Protected raw /\
     let r := config.ConfigSettings raw in
     (config.SettingsDefaultTTL r <> 0 ->
      config.SettingsDefaultTTL s = config.SettingsDefaultTTL r) /\
     (config.StaleThreshold r <> 0 ->
      config.StaleThreshold s = config.StaleThreshold r) /\
     (config.HeartbeatInterval r <> 0 ->
      config.HeartbeatInterval s = config.HeartbeatInterval r)) /\
  config.Load (Some cfg) = Some cfg /\
  (forall dir ttl, resolveTTL {| coordDir := dir; cfg := cfg |} ttl <> 0) /\
  (secondsFit (config.StaleThreshold s) ->
   config.StaleThreshold s < 0 ->
   forall dir w l,
     AcquiredAt l <= now w ->
     (forall hb,
        agents w !! heartbeatPath l = Some hb -> agent.ModTime hb <= now w) ->
     IsStale {| coordDir := dir; cfg := cfg |} w l = true).
Proof.
  destruct file as [raw|]; [|discriminate]. intros [= <-] s.
  destruct raw as [prot [ttl thr hbi]].
  assert (Hnz : config.SettingsDefaultTTL s <> 0 /\
                config.StaleThreshold s <> 0 /\
                config.HeartbeatInterval s <> 0).
  { unfold s, config.applyDefaults, config.DefaultTTL, config.DefaultStale,
      config.DefaultHeartbeat. simpl.
    destruct (Z.eqb_spec ttl 0), (Z.eqb_spec thr 0), (Z.eqb_spec hbi 0);
      repeat split; auto; discriminate. }
  split; [exact Hnz|]. split; [|split; [|split]].
  - eexists. split; [reflexivity|]. split; [reflexivity|].
    unfold s, config.applyDefaults. simpl.
    destruct (Z.eqb_spec ttl 0), (Z.eqb_spec thr 0), (Z.eqb_spec hbi 0);
      repeat split; intros; auto; contradiction.
  - unfold config.Load. f_equal.
    unfold config.applyDefaults. simpl.
    destruct (ttl =? 0) eqn:E1, (thr =? 0) eqn:E2, (hbi =? 0) eqn:E3;
      simpl; rewrite ?E1, ?E2, ?E3; reflexivity.
  - intros dir ttl0. unfold resolveTTL. simpl.
    destruct (Z.eqb_spec ttl0 0) as [_|Hne]; [apply Hnz | exact Hne].
  - intros Hfit Hneg dir w l Hacq Hhb. unfold IsStale. cbv zeta.
    cbn [lock.cfg]. fold s.
    destruct (time.Since (now w) (AcquiredAt l) >? time.Seconds (TTLSeconds l));
      [reflexivity|].
    rewrite !(Since_gt_Seconds _ _ (config.StaleThreshold s)) by assumption.
    destruct (agents w !! heartbeatPath l) as [hb|] eqn:Hl.
    + specialize (Hhb hb eq_refl).
      rewrite (Since_gt_Seconds _ _ (config.StaleThreshold s)) by assumption.
      replace (_ >? _) with true; [reflexivity|].
      symmetry. apply Z.gtb_gt. unfold time.Second. lia.
    + replace (_ >? _) with true; [reflexivity|].
      symmetry. apply Z.gtb_gt. unfold time.Second. lia.
Qed.

(** A file that sets only a stale threshold of minus one second. *)
Lemma Load_settings_witness :
  let raw :=
    {| config.Protected := [config.pp "go.mod" "Go Module" ""];
       config.ConfigSettings :=
         {| config.SettingsDefaultTTL := 0; config.StaleThreshold := -1;
            config.HeartbeatInterval := 0 |} |} in
  exists cfg,
    config.Load (Some raw) = Some cfg /\
    config.ConfigSettings cfg
    = {| config.SettingsDefaultTTL := 300; config.StaleThreshold := -1;
         config.HeartbeatInterval := 30 |} /\
    IsStale {| coordDir := ".claude-coord"; cfg := cfg |} testWorld
      (testLock "resource-1" "agent-1" "task 1") = true.
Proof.
  intros raw. eexists.
  assert (H : config.Load (Some raw) = Some (config.applyDefaults raw))
    by reflexivity.
  split; [exact H|]. split; [reflexivity|].
  destruct (Load_settings _ _ H) as (_ & _ & _ & _ & Hneg).
  apply Hneg.
  - vm_compute. split; discriminate.
  - reflexivity.
  - vm_compute. discriminate.
  - intros hb Hl. simpl in Hl. rewrite lookup_empty in Hl. discriminate.
Defined.

(** ** The command [wait] *)

Lemma runWait_skip m waitTimeout resource start before rest :
  Forall (fun w => held m resource w /\ timedOut waitTimeout start w = false)
    before ->
  cli.runWait m waitTimeout resource start (before ++ rest)
  = cli.runWait m waitTimeout resource start rest.
Proof.
  induction 1 as [|w before [(l & Hr & Hs) Ht] _ IH]; [reflexivity|].
  simpl. rewrite Hr, Hs. unfold timedOut in Ht. now rewrite Ht.
Qed.

(** X23.  [wait] polls until the resource is available or the wait has
    timed out.  It returns with success at the first poll that finds no
    lock it can read under the key, an unreadable file included, or a stale
    lock, however long it has waited.  It returns the timeout error, naming
    the holder, at the first poll that finds the resource locked when more
    than the timeout has passed since its start.  While the resource is
    locked and the timeout has not passed it keeps waiting; with a timeout
    of zero or less it never gives up. *)
Theorem runWait_outcomes m waitTimeout resource start before :
  Forall (fun w => held m resource w /\ timedOut waitTimeout start w = false)
    before ->
  cli.runWait m waitTimeout resource start before = None /\
  (forall w after,
     available m resource w ->
     cli.runWait m waitTimeout resource start (before ++ w :: after)
     = Some None) /\
  (forall w after l,
     Read w resource = inl l ->
     IsStale m w l = false ->
     timedOut waitTimeout start w = true ->
     cli.runWait m waitTimeout resource start (before ++ w :: after)
     = Some (Some (cli.ErrTimeout resource (AgentID l)))) /\
  (forall w,
     timedOut waitTimeout start w = true <->
     0 < waitTimeout /\
     time.Since (now w) start > time.Seconds waitTimeout).
Proof.
  intros Hb. split; [|split; [|split]].
  - rewrite <- (app_nil_r before). now rewrite runWait_skip.
  - intros w after Hav. rewrite runWait_skip by assumption. simpl.
    destruct Hav as [[err ->]|(l & -> & ->)]; reflexivity.
  - intros w after l Hr Hs Ht. rewrite runWait_skip by assumption. simpl.
    rewrite Hr, Hs. unfold timedOut in Ht. now rewrite Ht.
  - intros w. unfold timedOut. rewrite andb_true_iff, !Z.gtb_gt. lia.
Qed.

(** The lock of one second, held with a fresh heartbeat and polled a
    second and a half after the start of the wait and again later: a wait
    without timeout goes on, and succeeds once the lock is past its TTL; a
    wait of at most one second gives up at the first poll. *)
Lemma runWait_outcomes_witness :
  let m := defaultManager in
  let early := shortLockWorld 500000000 0 in
  let late := shortLockWorld 900000000 0 in
  cli.runWait m 0 "db/**/*" (-1000000000) [early; late] = None /\
  cli.runWait m 0 "db/**/*" (-1000000000)
    ([early; late] ++ [shortLockWorld 2000000000 0])
  = Some None /\
  cli.runWait m 1 "db/**/*" (-1000000000) ([] ++ [early; late])
  = Some (Some (cli.ErrTimeout "db/**/*" "agent-1")).
Proof.
  intros m early late.
  assert (H0 : Forall (fun w => held m "db/**/*" w /\
                                timedOut 0 (-1000000000) w = false)
                 [early; late]).
  { repeat constructor; exists shortLock; split; reflexivity. }
  destruct (runWait_outcomes m 0 "db/**/*" (-1000000000) [early; late] H0)
    as (H1 & H2 & _).
  split; [exact H1|]. split.
  - apply H2. right. exists shortLock. split; reflexivity.
  - refine (proj1 (proj2 (proj2 (runWait_outcomes m 1 "db/**/*" (-1000000000)
                                   [] (List.Forall_nil _))))
              early [late] shortLock _ _ _); reflexivity.
Defined.

(** ** The command [check] *)

Lemma IsNotProtected_mark c f g :
  cache.IsNotProtected (cache.MarkNotProtected c f) g
  = String.eqb f g || cache.IsNotProtected c g.
Proof.
  unfold cache.IsNotProtected, cache.MarkNotProtected. simpl.
  destruct (String.eqb_spec f g) as [->|Hne].
  - now rewrite lookup_insert_eq.
  - now rewrite lookup_insert_ne.
Qed.

Lemma cacheSound_mark Match cfg c f :
  cacheSound Match cfg c ->
  matchedPattern Match f (config.Protected cfg) = None ->
  cacheSound Match cfg (cache.MarkNotProtected c f).
Proof.
  intros Hc Hf g. rewrite IsNotProtected_mark.
  destruct (String.eqb_spec f g) as [<-|_]; [auto|]. apply Hc.
Qed.

Lemma startCache_sound Match sum cfg cacheFile :
  (forall c,
     cacheFile = Some c -> cache.IsValid sum c cfg = true ->
     cacheSound Match cfg c) ->
  cacheSound Match cfg (startCache sum cfg cacheFile).
Proof.
  intros H. unfold startCache.
  destruct (cache.IsValid sum (cache.Load cacheFile) cfg) eqn:Hv; simpl.
  - destruct cacheFile as [c|]; [now apply H|].
    intros f Hf. discriminate Hf.
  - intros f Hf. discriminate Hf.
Qed.

Lemma sameRun_refl st : sameRun st st.
Proof. repeat split. Qed.

Lemma sameRun_sym st st' : sameRun st st' -> sameRun st' st.
Proof. intros (? & ? & ?). repeat split; auto. Qed.

Lemma sameRun_trans st1 st2 st3 :
  sameRun st1 st2 -> sameRun st2 st3 -> sameRun st1 st3.
Proof. intros (? & ? & ?) (? & ? & ?). repeat split; congruence. Qed.

Section CheckCommand.

Variable Match : string -> string -> option bool.
Variables (fuel : nat) (m : Manager) (pid : Z) (checkAcquire : bool).
Variables agentID checkAgentName checkOperation : string.

Lemma CheckOrAcquire_unprotected w f :
  matchedPattern Match f (config.Protected (cfg m)) = None ->
  CheckOrAcquire Match fuel m pid w f agentID checkAgentName checkOperation
  = Some (w, (None, None)).
Proof. intros H. unfold CheckOrAcquire, Check. now rewrite H. Qed.

Lemma CheckOrAcquire_nothing w f w' :
  CheckOrAcquire Match fuel m pid w f agentID checkAgentName checkOperation
  = Some (w', (None, None)) ->
  matchedPattern Match f (config.Protected (cfg m)) = None.
Proof.
  unfold CheckOrAcquire, Check.
  destruct (matchedPattern Match f (config.Protected (cfg m))) as [p|];
    [|reflexivity].
  destruct (coveringLock Match f p (List w)) as [l|].
  - destruct (String.eqb (AgentID l) agentID); discriminate.
  - destruct (Acquire fuel m pid w _ agentID checkAgentName checkOperation 0)
      as [[w1 [e|]]|]; try discriminate.
    destruct (Read w1 _); discriminate.
Qed.

Lemma checkFile_cached st f :
  cache.IsNotProtected (cli.stCache st) f = true ->
  cli.checkFile Match fuel m pid checkAcquire agentID checkAgentName
    checkOperation st f
  = Some (cli.Finished st).
Proof. intros H. unfold cli.checkFile. now rewrite H. Qed.

Lemma checkFile_unprotected st f :
  matchedPattern Match f (config.Protected (cfg m)) = None ->
  exists st',
    cli.checkFile Match fuel m pid checkAcquire agentID checkAgentName
      checkOperation st f
    = Some (cli.Finished st') /\
    sameRun st st'.
Proof.
  intros Hp. unfold cli.checkFile.
  destruct (cache.IsNotProtected (cli.stCache st) f).
  - exists st. split; [reflexivity | apply sameRun_refl].
  - destruct checkAcquire.
    + rewrite CheckOrAcquire_unprotected by assumption.
      eexists. split; [reflexivity|]. repeat split.
    + unfold Check. rewrite Hp. simpl.
      eexists. split; [reflexivity|]. repeat split.
Qed.

Lemma checkFile_fresh st st' f :
  sameRun st st' ->
  cache.IsNotProtected (cli.stCache st) f = false ->
  cache.IsNotProtected (cli.stCache st') f = false ->
  sameOutcome
    (cli.checkFile Match fuel m pid checkAcquire agentID checkAgentName
       checkOperation st f)
    (cli.checkFile Match fuel m pid checkAcquire agentID checkAgentName
       checkOperation st' f).
Proof.
  intros (Hw & Hb & Ha) Hc Hc'. unfold cli.checkFile.
  rewrite Hc, Hc', <- Hw. destruct checkAcquire.
  - destruct (CheckOrAcquire Match fuel m pid (cli.stWorld st) f agentID
                checkAgentName checkOperation) as [[w1 [[l|] [e|]]]|];
      simpl; auto; repeat split; simpl; congruence.
  - destruct (Check Match m (cli.stWorld st) f) as [[l|] [|]]; simpl;
      try (repeat split; simpl; congruence).
    destruct (String.eqb (AgentID l) agentID); simpl;
      repeat split; simpl; congruence.
Qed.

Lemma checkFile_sim st st' f :
  sameRun st st' ->
  cacheSound Match (cfg m) (cli.stCache st) ->
  cacheSound Match (cfg m) (cli.stCache st') ->
  sameOutcome
    (cli.checkFile Match fuel m pid checkAcquire agentID checkAgentName
       checkOperation st f)
    (cli.checkFile Match fuel m pid checkAcquire agentID checkAgentName
       checkOperation st' f).
Proof.
  intros Hs Hc Hc'.
  destruct (cache.IsNotProtected (cli.stCache st) f) eqn:H1;
    destruct (cache.IsNotProtected (cli.stCache st') f) eqn:H2.
  - rewrite !checkFile_cached by assumption. exact Hs.
  - rewrite (checkFile_cached st) by assumption.
    destruct (checkFile_unprotected st' f (Hc f H1)) as (st2 & -> & Hs2).
    simpl. now apply (sameRun_trans _ st').
  - rewrite (checkFile_cached st') by assumption.
    destruct (checkFile_unprotected st f (Hc' f H2)) as (st2 & -> & Hs2).
    simpl. apply sameRun_sym. apply (sameRun_trans _ st); [|assumption].
    now apply sameRun_sym.
  - now apply checkFile_fresh.
Qed.

Lemma checkFile_cache st f st' :
  cli.checkFile Match fuel m pid checkAcquire agentID checkAgentName
    checkOperation st f
  = Some (cli.Finished st') ->
  cache.ConfigHash (cli.stCache st') = cache.ConfigHash (cli.stCache st) /\
  (cacheSound Match (cfg m) (cli.stCache st) ->
   cacheSound Match (cfg m) (cli.stCache st')) /\
  (cli.stModified st' = true \/
   cli.stModified st' = cli.stModified st /\ cli.stCache st' = cli.stCache st).
Proof.
  unfold cli.checkFile.
  destruct (cache.IsNotProtected (cli.stCache st) f).
  { intros [= <-]. auto. }
  destruct checkAcquire.
  - destruct (CheckOrAcquire Match fuel m pid (cli.stWorld st) f agentID
                checkAgentName checkOperation) as [[w1 [[l|] [e|]]]|] eqn:Hr;
      try discriminate; intros [= <-]; simpl; auto.
    split; [reflexivity|]. split; [|now left].
    intros Hc. apply cacheSound_mark; [assumption|].
    exact (CheckOrAcquire_nothing _ _ _ Hr).
  - unfold Check.
    destruct (matchedPattern Match f (config.Protected (cfg m))) as [p|] eqn:Hp;
      simpl.
    + destruct (coveringLock Match f p (List (cli.stWorld st))) as [l|].
      * destruct (String.eqb (AgentID l) agentID); intros [= <-]; simpl; auto.
      * intros [= <-]. auto.
    + intros [= <-]. simpl. split; [reflexivity|]. split; [|now left].
      intros Hc. now apply cacheSound_mark.
Qed.

Lemma checkFiles_sim files :
  forall st st',
    sameRun st st' ->
    cacheSound Match (cfg m) (cli.stCache st) ->
    cacheSound Match (cfg m) (cli.stCache st') ->
    sameOutcome
      (cli.checkFiles Match fuel m pid checkAcquire agentID checkAgentName
         checkOperation st files)
      (cli.checkFiles Match fuel m pid checkAcquire agentID checkAgentName
         checkOperation st' files).
Proof.
  induction files as [|f files IH]; intros st st' Hs Hc Hc'; simpl.
  - exact Hs.
  - pose proof (checkFile_sim st st' f Hs Hc Hc') as H.
    destruct (cli.checkFile _ _ _ _ _ _ _ _ st f) as [[st1|w1]|] eqn:H1;
      destruct (cli.checkFile _ _ _ _ _ _ _ _ st' f) as [[st1'|w1']|] eqn:H1';
      simpl in H; try contradiction; try exact H.
    apply IH; [exact H| |].
    + exact (proj1 (proj2 (checkFile_cache _ _ _ H1)) Hc).
    + exact (proj1 (proj2 (checkFile_cache _ _ _ H1')) Hc').
Qed.

Lemma checkFiles_cache files :
  forall st st',
    cli.checkFiles Match fuel m pid checkAcquire agentID checkAgentName
      checkOperation st files
    = Some (cli.Finished st') ->
    cache.ConfigHash (cli.stCache st') = cache.ConfigHash (cli.stCache st) /\
    (cacheSound Match (cfg m) (cli.stCache st) ->
     cacheSound Match (cfg m) (cli.stCache st')) /\
    (cli.stModified st' = true \/
     cli.stModified st' = cli.stModified st /\
     cli.stCache st' = cli.stCache st).
Proof.
  induction files as [|f files IH]; intros st st'; simpl.
  - intros [= <-]. auto.
  - destruct (cli.checkFile _ _ _ _ _ _ _ _ st f) as [[st1|w1]|] eqn:H1;
      try discriminate.
    intros H. destruct (IH _ _ H) as (Hh & Hs & Hm).
    destruct (checkFile_cache _ _ _ H1) as (Hh1 & Hs1 & Hm1).
    split; [congruence|]. split; [auto|].
    destruct Hm as [Hm|[Hm Hc]]; [now left|].
    destruct Hm1 as [Hm1|[Hm1 Hc1]]; [left | right; split]; congruence.
Qed.

End CheckCommand.

Lemma startCache_valid sum cfg cacheFile :
  cache.IsValid sum (startCache sum cfg cacheFile) cfg = true.
Proof.
  unfold startCache.
  destruct (cache.IsValid sum (cache.Load cacheFile) cfg) eqn:Hv; simpl;
    [exact Hv|].
  unfold cache.IsValid, cache.Reset. simpl. apply String.eqb_refl.
Qed.

Lemma startCache_None sum cfg :
  cache.NotProtected (startCache sum cfg None) = empty.
Proof.
  unfold startCache.
  now destruct (cache.IsValid sum (cache.Load None) cfg).
Qed.

(** X24.  The cache of [check] changes nothing in what the command does.
    If the cache file, when its hash is that of the configured patterns,
    holds only files that match no pattern, the command leaves the same
    directory, reports the same acquired and blocked files and returns the
    same error as without a cache file, or panics alike.  The cache it
    writes, if it writes one, again has the hash of the patterns and holds
    only files that match no pattern. *)
Theorem runCheck_cache_transparent Match sum Fields TrimSpace fuel m pid
    checkAcquire agentID checkAgentName checkOperation cacheFile args w :
  (forall c,
     cacheFile = Some c -> cache.IsValid sum c (cfg m) = true ->
     cacheSound Match (cfg m) c) ->
  let run :=
    cli.runCheck Match sum Fields TrimSpace fuel m pid checkAcquire agentID
      checkAgentName checkOperation in
  sameResult (run cacheFile args w) (run None args w) /\
  (forall r,
     run cacheFile args w = Some (inl r) ->
     cli.resCacheFile r = cacheFile \/
     exists c,
       cli.resCacheFile r = Some c /\
       cache.IsValid sum c (cfg m) = true /\
       cacheSound Match (cfg m) c).
Proof.
  intros Hsound run. subst run. unfold cli.runCheck.
  fold (startCache sum (cfg m) cacheFile). fold (startCache sum (cfg m) None).
  set (files := flat_map (cli.splitFiles Fields TrimSpace) args).
  set (st := {| cli.stWorld := w;
                cli.stCache := startCache sum (cfg m) cacheFile;
                cli.stModified := false; cli.stBlocked := [];
                cli.stAcquired := [] |}).
  set (st0 := {| cli.stWorld := w;
                 cli.stCache := startCache sum (cfg m) None;
                 cli.stModified := false; cli.stBlocked := [];
                 cli.stAcquired := [] |}).
  assert (Hc : cacheSound Match (cfg m) (cli.stCache st))
    by now apply startCache_sound.
  assert (Hc0 : cacheSound Match (cfg m) (cli.stCache st0))
    by (apply startCache_sound; discriminate).
  pose proof (checkFiles_sim Match fuel m pid checkAcquire agentID
                checkAgentName checkOperation files st st0
                (sameRun_refl st) Hc Hc0) as Hsim.
  split.
  - destruct (cli.checkFiles _ _ _ _ _ _ _ _ st files) as [[st1|w1]|];
      destruct (cli.checkFiles _ _ _ _ _ _ _ _ st0 files) as [[st1'|w1']|];
      simpl in Hsim; try contradiction; simpl; auto.
    destruct Hsim as (Hw & Hb & Ha). rewrite Hb. auto.
  - intros r.
    destruct (cli.checkFiles _ _ _ _ _ _ _ _ st files) as [[st1|w1]|] eqn:Hrun;
      try discriminate.
    intros [= <-]. simpl.
    destruct (checkFiles_cache _ _ _ _ _ _ _ _ _ _ _ Hrun) as (Hh & Hs & Hm).
    destruct Hm as [Hm|[Hm _]]; rewrite Hm; [|now left].
    right. exists (cli.stCache st1). split; [reflexivity|]. split; [|auto].
    pose proof (startCache_valid sum (cfg m) cacheFile) as Hv.
    unfold cache.IsValid in *. now rewrite Hh.
Qed.

(** A cache file that holds [README.md], and a run of [check --acquire]
    on [README.md] and [go.mod]. *)
Lemma runCheck_cache_transparent_witness :
  let cacheFile :=
    Some {| cache.ConfigHash := "0f";
            cache.NotProtected := {[ "README.md" := true ]} |} in
  let run :=
    cli.runCheck doublestar.Match (fun _ => "0f") (fun s => [s]) (fun s => s)
      1 defaultManager 1 true "agent-1" "" "edit" in
  sameResult (run cacheFile ["README.md"; "go.mod"] (emptyWorld 0))
    (run None ["README.md"; "go.mod"] (emptyWorld 0)).
Proof.
  intros cacheFile run.
  refine (proj1 (runCheck_cache_transparent doublestar.Match (fun _ => "0f")
                   (fun s => [s]) (fun s => s) 1 defaultManager 1 true
                   "agent-1" "" "edit" cacheFile ["README.md"; "go.mod"]
                   (emptyWorld 0) _)).
  intros c [= <-] _ f. unfold cache.IsNotProtected. simpl.
  destruct (decide (f = "README.md")) as [->|Hne].
  - intros _. vm_compute. reflexivity.
  - rewrite lookup_singleton_ne by congruence. discriminate.
Defined.

Lemma checkFiles_check Match fuel m pid agentID checkAgentName checkOperation
    files :
  forall st,
    cacheSound Match (cfg m) (cli.stCache st) ->
    exists st',
      cli.checkFiles Match fuel m pid false agentID checkAgentName
        checkOperation st files
      = Some (cli.Finished st') /\
      cli.stWorld st' = cli.stWorld st /\
      cli.stAcquired st' = cli.stAcquired st /\
      cli.stBlocked st'
      = cli.stBlocked st
        ++ blockedLines Match m agentID (cli.stWorld st) files.
Proof.
  induction files as [|f files IH]; intros st Hc.
  - exists st. simpl. now rewrite app_nil_r.
  - assert (Hstep : exists st1,
              cli.checkFile Match fuel m pid false agentID checkAgentName
                checkOperation st f
              = Some (cli.Finished st1) /\
              cli.stWorld st1 = cli.stWorld st /\
              cli.stAcquired st1 = cli.stAcquired st /\
              cli.stBlocked st1
              = cli.stBlocked st
                ++ blockedLines Match m agentID (cli.stWorld st) [f]).
    { unfold cli.checkFile, blockedLines. simpl.
      destruct (cache.IsNotProtected (cli.stCache st) f) eqn:Hn.
      - exists st. unfold Check. rewrite (Hc f Hn). simpl.
        now rewrite app_nil_r.
      - destruct (Check Match m (cli.stWorld st) f) as [[l|] [|]]; simpl.
        + destruct (String.eqb (AgentID l) agentID); simpl.
          * exists st. now rewrite app_nil_r.
          * eexists. repeat split.
        + eexists. repeat split. simpl. now rewrite app_nil_r.
        + exists st. now rewrite app_nil_r.
        + eexists. repeat split. simpl. now rewrite app_nil_r. }
    destruct Hstep as (st1 & H1 & Hw1 & Ha1 & Hb1).
    assert (Hc1 : cacheSound Match (cfg m) (cli.stCache st1))
      by exact (proj1 (proj2 (checkFile_cache _ _ _ _ _ _ _ _ _ _ _ H1)) Hc).
    destruct (IH st1 Hc1) as (st' & H' & Hw' & Ha' & Hb').
    exists st'. simpl. rewrite H1. split; [exact H'|].
    split; [congruence|]. split; [congruence|].
    rewrite Hb', Hb1, Hw1, <- app_assoc. f_equal.
    unfold blockedLines. simpl.
    now destruct (Check Match m (cli.stWorld st) f) as [[l|] [|]];
      [destruct (String.eqb (AgentID l) agentID)| | |].
Qed.

(** X25.  Without [--acquire], [check] only reads.  With a cache that
    holds only files that match no pattern, it finishes, leaves the
    directory as it is, acquires nothing, and reports as blocked exactly
    the files that are protected and covered by the lock of another agent,
    each with the owner and the operation of the first lock that covers
    it; its error counts them, and there is none when no file is
    blocked. *)
Theorem runCheck_reports Match sum Fields TrimSpace fuel m pid agentID
    checkAgentName checkOperation cacheFile args w :
  (forall c,
     cacheFile = Some c -> cache.IsValid sum c (cfg m) = true ->
     cacheSound Match (cfg m) c) ->
  exists r,
    cli.runCheck Match sum Fields TrimSpace fuel m pid false agentID
      checkAgentName checkOperation cacheFile args w
    = Some (inl r) /\
    cli.resWorld r = w /\
    cli.resAcquired r = [] /\
    cli.resBlocked r
    = blockedLines Match m agentID w
        (flat_map (cli.splitFiles Fields TrimSpace) args) /\
    cli.resError r
    = match cli.resBlocked r with
      | [] => None
      | _ :: _ => Some (cli.ErrBlocked (length (cli.resBlocked r)))
      end.
Proof.
  intros Hsound. unfold cli.runCheck.
  fold (startCache sum (cfg m) cacheFile).
  set (st := {| cli.stWorld := w;
                cli.stCache := startCache sum (cfg m) cacheFile;
                cli.stModified := false; cli.stBlocked := [];
                cli.stAcquired := [] |}).
  destruct (checkFiles_check Match fuel m pid agentID checkAgentName
              checkOperation
              (flat_map (cli.splitFiles Fields TrimSpace) args) st)
    as (st' & -> & Hw & Ha & Hb).
  { now apply startCache_sound. }
  eexists. split; [reflexivity|]. simpl.
  split; [exact Hw|]. split; [exact Ha|]. split; [exact Hb|].
  now destruct (cli.stBlocked st').
Qed.

(** The directory of the test under a configuration that protects the
    resources: [agent-2] asks about [resource-1], which [agent-1] holds,
    about [go.mod], which is not protected, and about [resource-3], which
    it holds itself. *)
Lemma runCheck_reports_witness :
  let m :=
    {| coordDir := ".claude-coord";
       cfg :=
         {| config.Protected := [config.pp "resource-*" "Resources" ""];
            config.ConfigSettings :=
              config.ConfigSettings config.DefaultConfig |} |} in
  exists r,
    cli.runCheck doublestar.Match (fun _ => "0f") (fun s => [s]) (fun s => s)
      0 m 1 false "agent-2" "" "" None ["resource-1"; "go.mod"; "resource-3"]
      testWorld
    = Some (inl r) /\
    cli.resWorld r = testWorld /\
    cli.resBlocked r = ["resource-1 (locked by agent-1: task 1)"] /\
    cli.resError r = Some (cli.ErrBlocked 1).
Proof.
  intros m.
  destruct (runCheck_reports doublestar.Match (fun _ => "0f") (fun s => [s])
              (fun s => s) 0 m 1 "agent-2" "" "" None
              ["resource-1"; "go.mod"; "resource-3"] testWorld)
    as (r & Hr & Hw & _ & Hb & He).
  { discriminate. }
  exists r. split; [exact Hr|]. split; [exact Hw|].
  assert (Hb' : cli.resBlocked r = ["resource-1 (locked by agent-1: task 1)"])
    by (rewrite Hb; vm_compute; reflexivity).
  split; [exact Hb'|]. rewrite He, Hb'. reflexivity.
Defined.

(** X26.  [check --acquire] dereferences the lock [CheckOrAcquire]
    returns whenever it returns an error, and [CheckOrAcquire] returns no
    lock when [Acquire] fails.  So the command panics on a file that is
    protected and covered by no listed lock while the key of its pattern is
    taken: by a file that cannot be read as a lock, such as one that is
    being written, or by a lock that is not stale and covers other files.
    The directory is left as it is. *)
Theorem runCheck_acquire_panics Match sum Fields TrimSpace fuel m pid agentID
    checkAgentName checkOperation cacheFile args w f rest :
  flat_map (cli.splitFiles Fields TrimSpace) args = f :: rest ->
  cache.IsNotProtected (startCache sum (cfg m) cacheFile) f = false ->
  Check Match m w f = (None, true) ->
  let resource := resourceFor Match f (config.Protected (cfg m)) in
  (Read w resource = inr ErrUnmarshal \/
   exists l, Read w resource = inl l /\ IsStale m w l = false) ->
  cli.runCheck Match sum Fields TrimSpace (S fuel) m pid true agentID
    checkAgentName checkOperation cacheFile args w
  = Some (inr w).
Proof.
  intros Hfiles Hcache Hcheck resource Htaken. unfold cli.runCheck.
  fold (startCache sum (cfg m) cacheFile). rewrite Hfiles. simpl.
  unfold cli.checkFile. simpl. rewrite Hcache.
  assert (Hacq : Acquire (S fuel) m pid w resource agentID checkAgentName
                   checkOperation 0
                 = Some (w, Some ErrAcquire) \/
                 exists l,
                   Acquire (S fuel) m pid w resource agentID checkAgentName
                     checkOperation 0
                   = Some (w, Some (lockedError resource l))).
  { destruct Htaken as [Hr|(l & Hr & Hs)].
    - left. unfold Read in Hr.
      destruct (lookupFile (lockPath resource) (locks w)) as [g|] eqn:Hl;
        [|discriminate].
      destruct (Data g) eqn:Hd; [discriminate|].
      now apply (Acquire_unreadable _ _ _ _ _ _ _ _ _ g).
    - right. exists l. now apply Acquire_held. }
  unfold CheckOrAcquire. rewrite Hcheck. fold resource.
  destruct Hacq as [->|[l ->]]; reflexivity.
Qed.

(** [agent-2] checks [go.mod] while another process is between the
    creation of the lock file and the write of its lock. *)
Lemma runCheck_acquire_panics_witness :
  Read halfWritten "go.mod" = inr ErrUnmarshal /\
  cli.runCheck doublestar.Match (fun _ => "0f") (fun s => [s]) (fun s => s)
    1 defaultManager 2 true "agent-2" "" "tidy" None ["go.mod"] halfWritten
  = Some (inr halfWritten).
Proof.
  assert (H : Read halfWritten "go.mod" = inr ErrUnmarshal) by reflexivity.
  split; [exact H|].
  apply (runCheck_acquire_panics doublestar.Match (fun _ => "0f")
           (fun s => [s]) (fun s => s) 0 defaultManager 2 "agent-2" "" "tidy"
           None ["go.mod"] halfWritten "go.mod" []).
  - reflexivity.
  - vm_compute. reflexivity.
  - vm_compute. reflexivity.
  - left. vm_compute. reflexivity.
Defined.

(** ** The command [deregister] *)

(** X27.  [deregister] needs an agent ID, from the flag or else from the
    environment.  With one it always succeeds and leaves the agent
    unregistered, a failure to release locks being a warning only.  With
    [--release-all], in a directory whose lock files are under the keys of
    their resources, the locks of the agent are gone and no other.
    Without it the locks stay, and for an ID without path separators
    they are from then on stale by their age alone. *)
Theorem runDeregister_effect flagID envID release w :
  let agentID := if String.eqb flagID "" then envID else flagID in
  (agentID = "" ->
   cli.runDeregister flagID envID release w
   = (w, Some cli.ErrAgentRequired)) /\
  (agentID <> "" ->
   exists w',
     cli.runDeregister flagID envID release w = (w', None) /\
     agent.Read (agents w') agentID = inr agent.ErrNotExist /\
     now w' = now w /\
     (release = true -> wfDir (locks w) ->
      locks w' = dropOwned agentID (locks w)) /\
     (release = false ->
      locks w' = locks w /\
      (plainID agentID ->
       forall m l,
         AgentID l = agentID ->
         secondsFit (TTLSeconds l) ->
         secondsFit (staleThreshold m) ->
         IsStale m w' l
         = (now w - AcquiredAt l >? TTLSeconds l * time.Second)
           || (now w - AcquiredAt l >? staleThreshold m * time.Second)))).
Proof.
  intros agentID. unfold cli.runDeregister. fold agentID. split.
  - intros ->. reflexivity.
  - intros Hne. destruct (String.eqb_spec agentID ""); [contradiction|].
    eexists. split; [reflexivity|]. simpl.
    split; [|split; [|split]].
    + unfold agent.Read, agent.Deregister. now rewrite lookup_delete_eq.
    + destruct release; [|reflexivity]. unfold ReleaseAll.
      pose proof (releaseEach_general agentID (List w) w []) as H.
      destruct (releaseEach w agentID (List w) []) as [w1 errs].
      destruct (H _ _ eq_refl) as ((_ & _ & Hn) & _).
      now destruct (0 <? length errs)%nat.
    + intros -> Hwf. now rewrite ReleaseAll_wf.
    + intros ->. split; [reflexivity|]. intros Hp m l Hl Ht Hs.
      rewrite IsStale_fit by assumption. simpl.
      rewrite (heartbeatPath_agentPath l) by now rewrite Hl.
      rewrite Hl. unfold agent.Deregister. now rewrite lookup_delete_eq.
Qed.

(** [agent-1] leaves the directory of the test, with and without its
    locks. *)
Lemma runDeregister_effect_witness :
  (exists w',
     cli.runDeregister "" "agent-1" true testWorld = (w', None) /\
     List w' = [testLock "resource-3" "agent-2" "task 3"]) /\
  (exists w',
     cli.runDeregister "agent-1" "" false testWorld = (w', None) /\
     List w' = List testWorld).
Proof.
  split.
  - destruct (proj2 (runDeregister_effect "" "agent-1" true testWorld))
      as (w' & H & _ & _ & Hl & _); [discriminate|].
    exists w'. split; [exact H|]. unfold List.
    rewrite (Hl eq_refl testWorld_wf). reflexivity.
  - destruct (proj2 (runDeregister_effect "agent-1" "" false testWorld))
      as (w' & H & _ & _ & _ & Hl); [discriminate|].
    exists w'. split; [exact H|]. unfold List.
    now rewrite (proj1 (Hl eq_refl)).
Defined.

(** ** The command [gc] *)





(** ** Generated agent IDs *)

Lemma mapString_append f a b :
  mapString f (a +:+ b) = mapString f a +:+ mapString f b.
Proof. induction a as [|c a IH]; simpl; [reflexivity | now rewrite IH]. Qed.

Lemma digits_plain d :
  mapString agentFiller (NilEmpty.string_of_uint d)
  = NilEmpty.string_of_uint d.
Proof. induction d; simpl; [reflexivity | now rewrite IHd ..]. Qed.

Lemma itoa_plain n : mapString agentFiller (agent.itoa n) = agent.itoa n.
Proof.
  unfold agent.itoa, NilZero.string_of_int, NilZero.string_of_uint.
  destruct (Z.to_int n) as [d|d]; destruct d; simpl;
    rewrite ?digits_plain; reflexivity.
Qed.

(** X29.  A generated agent ID has no path separator, so its heartbeat
    file is the one [IsStale] looks at.  The ID depends on the clock
    through the remainder of the nanosecond count by 100000 only: in one
    process, two clock readings a multiple of a hundred microseconds apart
    give the same ID. *)
Theorem GenerateID_shape pid now :
  plainID (agent.GenerateID pid now) /\
  (forall l,
     AgentID l = agent.GenerateID pid now ->
     heartbeatPath l = agent.agentPath (AgentID l)) /\
  (forall k,
     0 <= now -> 0 <= k ->
     agent.GenerateID pid (now + k * 100000) = agent.GenerateID pid now).
Proof.
  assert (Hp : plainID (agent.GenerateID pid now)).
  { unfold plainID, agent.GenerateID.
    rewrite !mapString_append, !itoa_plain. reflexivity. }
  split; [exact Hp|]. split.
  - intros l Hl. apply heartbeatPath_agentPath. now rewrite Hl.
  - intros k Hn Hk. unfold agent.GenerateID.
    rewrite Z.rem_add; [reflexivity | lia | nia].
Qed.

(** ** The commands [lock] and [unlock] *)



